(** * OldSeriesRule: a read-only rule reporting the series last written
      at or before a threshold (rules/old_series.go)

    Shallow embedding of the rule and of its formaters.  Go values are
    embedded as follows:
    - [int64] timestamps are [Z] (the rule only compares and stores them);
    - [string] and [[]byte] are [string], a sequence of 8-bit characters;
    - [map[string]int64] is [gmap string Z]; the order in which [range]
      visits a map is unspecified in Go and is an explicit argument;
    - a run-time panic is the [Panic] outcome of the [result] type;
    - an [io.Writer] is any type with a [Write] operation (class [Writer]);
    - a [*log.Logger] is the list of the messages handed to it. *)

From Stdlib Require Import ZArith Lia Ascii.
From stdpp Require Import gmap strings list sorting pretty.

Local Open Scope Z_scope.

(** ** Outcomes of Go code that may panic *)

Inductive result (A : Type) : Type :=
  | Ok (a : A)
  | Panic (msg : string).
Arguments Ok {A} a.
Arguments Panic {A} msg.

Definition result_bind {A B} (x : result A) (f : A → result B) : result B :=
  match x with
  | Ok a => f a
  | Panic msg => Panic msg
  end.

Notation "x ←! y ; z" := (result_bind y (λ x, z))
  (at level 20, y at level 100, z at level 200, only parsing).

(** Go's [error] values, as far as this file produces them. *)
Inductive error : Type :=
  | Errorf (msg : string)
  | ParseError (layout value : string)
  | PathError (path : string)
  | UnsupportedTypeError
  | WriteError.

Abbreviation bytes := string (only parsing).

(** [len(s)] of a slice, an [int]. *)
Definition len {A} (l : list A) : Z := Z.of_nat (length l).

(** [s[i]]: the bounds-checked index expression on a slice. *)
Definition index {A} (l : list A) (i : Z) : result A :=
  if decide (0 ≤ i < len l) then
    match l !! Z.to_nat i with
    | Some x => Ok x
    | None => Panic "index out of range"
    end
  else Panic "index out of range".

(** ** The collaborators of the storage engine *)

(** A [tsm1.Value]; the rule reads nothing but its timestamp. *)
Record Value : Type := mkValue { UnixNano : Z }.

(** [tsm1.SeriesAndFieldFromCompositeKey] as the storage engine defines it:
    the composite key is cut at the first occurrence of the separator
    [#!~#]; without separator the whole key is the series and there is no
    field. The rule itself is verified for an arbitrary decoder. *)
Definition keyFieldSeparator : string := "#!~#".

Fixpoint cut_at (sep s : string) : option (string * string) :=
  match s with
  | EmptyString => if decide (sep = "") then Some ("", "") else None
  | String a s' =>
      if String.prefix sep s then
        Some ("", String.substring (String.length sep)
                    (String.length s - String.length sep) s)
      else
        match cut_at sep s' with
        | Some (before, after) => Some (String a before, after)
        | None => None
        end
  end.

Definition tsm1_SeriesAndFieldFromCompositeKey (key : bytes) : bytes * bytes :=
  match cut_at keyFieldSeparator key with
  | Some (seriesKey, field) => (seriesKey, field)
  | None => (key, "")
  end.

(** ** Destinations and loggers *)

(** An [io.Writer]: [Write] consumes the bytes and returns the writer's next
    state, the number of bytes written and an error or [None]. *)
Class Writer (W : Type) : Type :=
  Write : W → bytes → W * (Z * option error).

(** A destination that keeps everything written to it. *)
Record Buffer : Type := mkBuffer { contents : string }.
Global Instance Buffer_Writer : Writer Buffer :=
  λ b p, (mkBuffer (contents b +:+ p), (Z.of_nat (String.length p), None)).

(** A destination on which every write fails (a closed file). *)
Inductive Closed : Type := closed.
Global Instance Closed_Writer : Writer Closed :=
  λ w _, (w, (0, Some WriteError)).

(** A [*log.Logger]: the messages printed so far, oldest first. The prefix,
    the header and the final newline that the logger adds are its own. *)
Record Logger : Type := mkLogger { entries : list string }.

Definition Logger_Printf (l : Logger) (msg : string) : Logger :=
  mkLogger (entries l ++ [msg]).

(** ** Package [time], as far as the rule uses it *)

(** A [*time.Location]: the offset east of UTC, in seconds, in force at a
    given Unix second. *)
Definition Location : Type := Z → Z.
Definition time_UTC : Location := λ _, 0.

(** A [time.Time]: seconds and nanoseconds since the Unix epoch, and the
    location the instant is displayed in. *)
Record time_Time : Type := mkTime {
  unixSec : Z;
  nsec : Z;
  loc : Location
}.

(** Go's integer division truncates towards zero. *)
Definition time_Unix (Local : Location) (sec nsec : Z) : time_Time :=
  if decide (nsec < 0 ∨ nsec >= 10^9) then
    let n := Z.quot nsec (10^9) in
    let sec := sec + n in
    let nsec := nsec - n * 10^9 in
    if decide (nsec < 0) then mkTime (sec - 1) (nsec + 10^9) Local
    else mkTime sec nsec Local
  else mkTime sec nsec Local.

(** Conversion to [int64]. *)
Definition int64 (z : Z) : Z := (z + 2^63) mod 2^64 - 2^63.

Definition Time_UnixNano (t : time_Time) : Z :=
  int64 (unixSec t * 10^9 + nsec t).

Definition time_Nanosecond : Z := 1.

Definition time_RFC3339 : string := "2006-01-02T15:04:05Z07:00".

(** [appendInt]: the decimal digits of [x], padded with zeros to [width],
    after a minus sign when [x] is negative. *)
Fixpoint zeros (n : nat) : string :=
  match n with
  | O => ""
  | S n => String "0"%char (zeros n)
  end.

Definition appendInt (x : Z) (width : nat) : string :=
  let digits := pretty (Z.to_N (Z.abs x)) in
  let padded := zeros (width - String.length digits)%nat +:+ digits in
  if decide (x < 0) then "-" +:+ padded else padded.

(** The civil date of a day number counted from 1970-01-01, in the proleptic
    Gregorian calendar: [(year, month, day)]. *)
Definition civil_from_days (days : Z) : Z * Z * Z :=
  let z := days + 719468 in
  let era := z `div` 146097 in
  let doe := z - era * 146097 in
  let yoe := (doe - doe `div` 1460 + doe `div` 36524 - doe `div` 146096) `div` 365 in
  let doy := doe - (365 * yoe + yoe `div` 4 - yoe `div` 100) in
  let mp := (5 * doy + 2) `div` 153 in
  let d := doy - (153 * mp + 2) `div` 5 + 1 in
  let m := if decide (mp < 10) then mp + 3 else mp - 9 in
  let y := yoe + era * 400 in
  (if decide (m <= 2) then y + 1 else y, m, d).

(** The zone suffix of the layout element [Z07:00]. *)
Definition format_zone (offset : Z) : string :=
  if decide (offset = 0) then "Z"
  else
    let zone := Z.quot offset 60 in
    let sign := if decide (zone < 0) then "-" else "+" in
    let zone := if decide (zone < 0) then - zone else zone in
    sign +:+ appendInt (Z.quot zone 60) 2 +:+ ":" +:+ appendInt (Z.rem zone 60) 2.

(** The date and the clock of [t] in its location, at second precision. *)
Definition format_date_clock (t : time_Time) : string :=
  let offset := loc t (unixSec t) in
  let abs := unixSec t + offset in
  let '(year, month, day) := civil_from_days (abs `div` 86400) in
  let sod := abs `mod` 86400 in
  appendInt year 4 +:+ "-" +:+ appendInt month 2 +:+ "-" +:+ appendInt day 2
    +:+ "T" +:+ appendInt (sod `div` 3600) 2
    +:+ ":" +:+ appendInt ((sod `mod` 3600) `div` 60) 2
    +:+ ":" +:+ appendInt (sod `mod` 60) 2.

(** [t.Format(time.RFC3339)]: the layout has no fractional-second element. *)
Definition format_RFC3339 (t : time_Time) : string :=
  format_date_clock t +:+ format_zone (loc t (unixSec t)).

(** RFC 3339 at nanosecond precision, as the specification words it (Go's
    layout [time.RFC3339Nano]): a fraction of up to nine digits follows the
    seconds, without trailing zeros, and is left out when it is zero. *)
Fixpoint trim_zeros (fuel : nat) (n : Z) (width : nat) : string :=
  match fuel with
  | O => appendInt n width
  | S fuel =>
      if decide (n `mod` 10 = 0 ∧ (1 < width)%nat)
      then trim_zeros fuel (n `div` 10) (width - 1)
      else appendInt n width
  end.

Definition format_fraction (nsec : Z) : string :=
  if decide (nsec = 0) then "" else "." +:+ trim_zeros 9 nsec 9.

Definition format_RFC3339_nanosecond (t : time_Time) : string :=
  format_date_clock t +:+ format_fraction (nsec t)
    +:+ format_zone (loc t (unixSec t)).

(** [strings.EqualFold] against an ASCII string without the letters k and s
    (the only ASCII letters with a non-ASCII case variant): two such strings
    are equal under Unicode case folding iff their bytes are equal up to the
    case of ASCII letters. *)
Definition ascii_lower (a : ascii) : ascii :=
  let n := N_of_ascii a in
  if decide (65 ≤ n ≤ 90)%N then ascii_of_N (n + 32) else a.

Fixpoint strings_EqualFold (s t : string) : bool :=
  match s, t with
  | EmptyString, EmptyString => true
  | String a s', String b t' =>
      bool_decide (ascii_lower a = ascii_lower b) && strings_EqualFold s' t'
  | _, _ => false
  end.

(** ** Conversion of an integer to a string: [string(v)] *)

Definition runeError : Z := 0xFFFD.
Definition maxRune : Z := 0x10FFFF.
Definition surrogateMin : Z := 0xD800.
Definition surrogateMax : Z := 0xDFFF.

(** Conversions to [int32] (a [rune]), to [uint32] and to [uint8] (a [byte]). *)
Definition int32 (z : Z) : Z := (z + 2^31) mod 2^32 - 2^31.
Definition uint32 (z : Z) : Z := z mod 2^32.
Definition uint8 (z : Z) : Z := Z.land z 0xFF.

Definition char_of (b : Z) : ascii := ascii_of_N (Z.to_N b).
Definition code_of (a : ascii) : Z := Z.of_N (N_of_ascii a).

Fixpoint chars (bs : list Z) : string :=
  match bs with
  | [] => ""
  | b :: bs => String (char_of b) (chars bs)
  end.

Definition encode3 (r : Z) : list Z :=
  [ Z.lor 0xE0 (uint8 (Z.shiftr r 12));
    Z.lor 0x80 (Z.land (uint8 (Z.shiftr r 6)) 0x3F);
    Z.lor 0x80 (Z.land (uint8 r) 0x3F) ].

(** [encoderune] of the runtime: the UTF-8 encoding of the rune [r]. *)
Definition encoderune (r : Z) : list Z :=
  let i := uint32 r in
  if decide (i ≤ 0x7F) then [ uint8 r ]
  else if decide (i ≤ 0x7FF) then
    [ Z.lor 0xC0 (uint8 (Z.shiftr r 6)); Z.lor 0x80 (Z.land (uint8 r) 0x3F) ]
  else if decide (i > maxRune ∨ (surrogateMin ≤ i ∧ i ≤ surrogateMax)) then
    encode3 runeError
  else if decide (i ≤ 0xFFFF) then encode3 r
  else
    [ Z.lor 0xF0 (uint8 (Z.shiftr r 18));
      Z.lor 0x80 (Z.land (uint8 (Z.shiftr r 12)) 0x3F);
      Z.lor 0x80 (Z.land (uint8 (Z.shiftr r 6)) 0x3F);
      Z.lor 0x80 (Z.land (uint8 r) 0x3F) ].

(** [intstring] of the runtime: a value that is not a rune becomes
    [runeError] before it is encoded. *)
Definition intstring (v : Z) : string :=
  let v := if decide (int32 v = v) then v else runeError in
  chars (encoderune v).

(** The bytes of a string, and the runes of a string as [range] over a string
    and [utf8.DecodeRune] yield them: an invalid byte yields [runeError]
    and is skipped alone. *)
Fixpoint codes (s : string) : list Z :=
  match s with
  | EmptyString => []
  | String a s => code_of a :: codes s
  end.

Definition in_range (lo hi b : Z) : bool := bool_decide (lo ≤ b ≤ hi).
Definition is_cont (b : Z) : bool := in_range 0x80 0xBF b.
Definition payload (b : Z) : Z := Z.land b 0x3F.

Definition DecodeRune (p : list Z) : Z * list Z :=
  match p with
  | [] => (runeError, [])
  | b0 :: rest =>
      if decide (b0 < 0x80) then (b0, rest)
      else if in_range 0xC2 0xDF b0 then
        match rest with
        | b1 :: rest' =>
            if is_cont b1
            then (Z.lor (Z.shiftl (Z.land b0 0x1F) 6) (payload b1), rest')
            else (runeError, rest)
        | _ => (runeError, rest)
        end
      else if in_range 0xE0 0xEF b0 then
        match rest with
        | b1 :: b2 :: rest' =>
            let lo := if decide (b0 = 0xE0) then 0xA0 else 0x80 in
            let hi := if decide (b0 = 0xED) then 0x9F else 0xBF in
            if in_range lo hi b1 && is_cont b2
            then (Z.lor (Z.shiftl (Z.land b0 0x0F) 12)
                    (Z.lor (Z.shiftl (payload b1) 6) (payload b2)), rest')
            else (runeError, rest)
        | _ => (runeError, rest)
        end
      else if in_range 0xF0 0xF4 b0 then
        match rest with
        | b1 :: b2 :: b3 :: rest' =>
            let lo := if decide (b0 = 0xF0) then 0x90 else 0x80 in
            let hi := if decide (b0 = 0xF4) then 0x8F else 0xBF in
            if in_range lo hi b1 && is_cont b2 && is_cont b3
            then (Z.lor (Z.shiftl (Z.land b0 0x07) 18)
                    (Z.lor (Z.shiftl (payload b1) 12)
                       (Z.lor (Z.shiftl (payload b2) 6) (payload b3))), rest')
            else (runeError, rest)
        | _ => (runeError, rest)
        end
      else (runeError, rest)
  end.

Fixpoint runes_of (fuel : nat) (p : list Z) : list Z :=
  match fuel, p with
  | _, [] => []
  | O, _ => []
  | S fuel, _ => let '(r, rest) := DecodeRune p in r :: runes_of fuel rest
  end.

(** [[]rune(s)]: every step consumes a byte, the length is fuel enough. *)
Definition runes (s : string) : list Z := runes_of (String.length s) (codes s).

(** ** The timestamp renderer and the formaters *)

(** What the renderer takes from its environment: the location [time.Local]
    of the process, and [Time.Format] on the layouts other than
    [time.RFC3339], whose layout language is that of package [time]. *)
Class TimeEnv : Type := {
  time_Local : Location;
  Format_layout : time_Time → string → string
}.

Definition Time_Format `{TimeEnv} (t : time_Time) (layout : string) : string :=
  if decide (layout = time_RFC3339) then format_RFC3339 t
  else Format_layout t layout.

Definition formatTimestamp `{TimeEnv} (unixNano : Z) (layout : string) : string :=
  if decide (layout = "") then intstring unixNano
  else
    let ts := time_Unix time_Local 0 unixNano in
    if strings_EqualFold layout "RFC3339" then Time_Format ts time_RFC3339
    else Time_Format ts layout.

Record textFormater : Type := mkTextFormater {
  text_withTimestamp : bool;
  text_timestampLayout : string
}.

Record jsonFormater : Type := mkJsonFormater {
  json_withTimestamp : bool;
  json_timestampLayout : string
}.

(** The interface [formater] and its two implementations. *)
Inductive formater : Type :=
  | TextFormater (f : textFormater)
  | JsonFormater (f : jsonFormater).

(** [fmt.Fprintf] and [fmt.Fprintln] format into a buffer and hand it to the
    destination in one [Write]; they return what [Write] returns. *)
Definition fmt_Fprint `{Writer W} (iow : W) (text : string)
  : W * (Z * option error) := Write iow text.

Definition newline : string := String (ascii_of_nat 10) "".

Definition textFormater_format `{TimeEnv} `{Writer W}
    (f : textFormater) (iow : W) (serie : string) (timestamp : Z)
  : W * option error :=
  if text_withTimestamp f then
    let '(iow, _) :=
      fmt_Fprint iow (serie +:+ ": "
        +:+ formatTimestamp timestamp (text_timestampLayout f) +:+ newline) in
    (iow, None)
  else
    let '(iow, _) := fmt_Fprint iow (serie +:+ newline) in
    (iow, None).

(** ** JSON marshalling of a [map[string]interface{}] *)

(** The order in which a [range] loop or a map iterator visits a map: any
    enumeration of its entries. Go gives no further guarantee. *)
Record MapIter : Type := mkMapIter {
  range : ∀ V : Type, gmap string V → list (string * V);
  range_Permutation : ∀ V (m : gmap string V), range V m ≡ₚ map_to_list m
}.
Arguments range _ {V} m.

(** The values stored behind [interface{}]: strings, and a value that
    [encoding/json] cannot marshal (a channel). *)
Inductive any : Type :=
  | AString (s : string)
  | AChan.

(** [sort.Strings] and the sort of the marshaller order strings by their
    bytes; [String.le] is this order. *)
Definition sort_Strings (keys : list string) : list string :=
  merge_sort String.le keys.

Definition key_le {V} (x y : string * V) : Prop := String.le x.1 y.1.
Global Instance key_le_dec {V} : RelDecision (@key_le V).
Proof. intros x y. unfold key_le. apply _. Defined.
Global Instance key_le_trans {V} : Transitive (@key_le V).
Proof. intros x y z. unfold key_le. apply transitivity. Qed.

Global Instance key_le_total {V} : Total (@key_le V).
Proof. intros x y. unfold key_le. apply total, _. Qed.

(** What [json.Marshal] takes from its environment: the string literal
    (quotes and escapes) that [encoding/json] writes for a Go string. *)
Class JsonEnv : Type := encodeString : string → string.

Definition json_value `{JsonEnv} (v : any) : string + error :=
  match v with
  | AString s => inl (encodeString s)
  | AChan => inr UnsupportedTypeError
  end.

Fixpoint json_fields `{JsonEnv} (first : bool) (kvs : list (string * any))
  : string + error :=
  match kvs with
  | [] => inl ""
  | (k, v) :: kvs =>
      match json_value v with
      | inr err => inr err
      | inl ev =>
          match json_fields false kvs with
          | inr err => inr err
          | inl rest =>
              inl ((if first then "" else ",") +:+ encodeString k +:+ ":"
                     +:+ ev +:+ rest)
          end
      end
  end.

(** [json.Marshal] on a map: the entries are collected in iteration order,
    sorted by key and written between braces; any failure discards the
    output. *)
Definition json_Marshal `{JsonEnv} (it : MapIter) (data : gmap string any)
  : string + error :=
  let sv := merge_sort key_le (range it data) in
  match json_fields true sv with
  | inr err => inr err
  | inl body => inl ("{" +:+ body +:+ "}")
  end.

Definition jsonFormater_formatLine `{JsonEnv} `{Writer W} (it : MapIter)
    (f : jsonFormater) (iow : W) (data : gmap string any) : W * option error :=
  match json_Marshal it data with
  | inr err => (iow, Some err)
  | inl b =>
      let '(iow, _) := fmt_Fprint iow (b +:+ newline) in
      (iow, None)
  end.

Definition jsonFormater_format `{TimeEnv} `{JsonEnv} `{Writer W} (it : MapIter)
    (f : jsonFormater) (iow : W) (serie : string) (timestamp : Z)
  : W * option error :=
  let data : gmap string any := {[ "Serie" := AString serie ]} in
  let data :=
    if json_withTimestamp f
    then <[ "Timestamp" :=
             AString (formatTimestamp timestamp (json_timestampLayout f)) ]> data
    else data in
  jsonFormater_formatLine it f iow data.

(** Dynamic dispatch of [formater.format]. *)
Definition format `{TimeEnv} `{JsonEnv} `{Writer W} (it : MapIter)
    (f : formater) (iow : W) (serie : string) (timestamp : Z)
  : W * option error :=
  match f with
  | TextFormater f => textFormater_format f iow serie timestamp
  | JsonFormater f => jsonFormater_format it f iow serie timestamp
  end.

Definition newFormater (format : string) (withTimestamp : bool)
    (timestampLayout : string) : formater + error :=
  if decide (format = "text") then
    inl (TextFormater (mkTextFormater withTimestamp timestampLayout))
  else if decide (format = "json") then
    inl (JsonFormater (mkJsonFormater withTimestamp timestampLayout))
  else inr (Errorf ("Unknown format " +:+ format)).

(** ** The rule *)

Record OldSeriesRule (W : Type) : Type := mkRule {
  unixNano : Z;
  out : W;
  series : gmap string Z;
  rule_formater : formater;
  logger : Logger
}.
Arguments mkRule {W}.
Arguments unixNano {W}.
Arguments out {W}.
Arguments series {W}.
Arguments rule_formater {W}.
Arguments logger {W}.

Record OldSerieRuleConfig : Type := mkConfig {
  Time : string;
  Out : string;
  Format : string;
  Timestamp : bool;
  TimestampLayout : string
}.

(** A block as the engine hands it to [Apply]: the new key, the new values
    and the error; [None] is Go's [nil]. *)
Definition rewrite : Type := option bytes * option (list Value) * option error.

Section Rule.
Context {W : Type} `{!Writer W} `{!TimeEnv} `{!JsonEnv}.

(** The key decoder of the storage engine and the logger registry. *)
Variable SeriesAndFieldFromCompositeKey : bytes → bytes * bytes.
Variable logging_GetLogger : string → Logger.

Definition newOldSeriesRule (t : time_Time) (out : W) (formater : formater)
  : OldSeriesRule W :=
  {| unixNano := Z.quot (Time_UnixNano t) time_Nanosecond;
     out := out;
     series := ∅;
     rule_formater := formater;
     logger := logging_GetLogger "OldSeriesRule" |}.

Definition NewOldSeriesRule (t : time_Time) (out : W) (format : string)
  : OldSeriesRule W + error :=
  match newFormater format false "" with
  | inr err => inr err
  | inl formater => inl (newOldSeriesRule t out formater)
  end.

Definition set_series (r : OldSeriesRule W) (m : gmap string Z)
  : OldSeriesRule W :=
  {| unixNano := unixNano r; out := out r; series := m;
     rule_formater := rule_formater r; logger := logger r |}.

Definition Apply (r : OldSeriesRule W) (key : bytes) (values : list Value)
  : result (OldSeriesRule W * rewrite) :=
  let '(seriesKey, _) := SeriesAndFieldFromCompositeKey key in
  v ←! index values (len values - 1);
  let maxTs := UnixNano v in
  let s := seriesKey in
  let r :=
    match series r !! s with
    | Some ts =>
        if decide (maxTs > ts) then set_series r (<[s := maxTs]> (series r))
        else r
    | None => set_series r (<[s := maxTs]> (series r))
    end in
  Ok (r, (None, None, None)).

(** The loop of [End] over the sorted keys: the destination and the
    counter are the state; the value of [format] is dropped. *)
Fixpoint End_loop (it : MapIter) (r : OldSeriesRule W) (keys : list string)
    (out : W) (count : Z) : W * Z :=
  match keys with
  | [] => (out, count)
  | key :: keys =>
      let maxTs := default 0 (series r !! key) in
      if decide (maxTs ≤ unixNano r) then
        let '(out, _) := format it (rule_formater r) out key maxTs in
        End_loop it r keys out (count + 1)
      else End_loop it r keys out count
  end.

(** [%d] of an [int]. *)
Definition fmt_d (n : Z) : string := pretty n.

Definition End (it : MapIter) (r : OldSeriesRule W) : OldSeriesRule W :=
  let keys := (range it (series r)).*1 in
  let keys := sort_Strings keys in
  let '(out, count) := End_loop it r keys (out r) 0 in
  {| unixNano := unixNano r; out := out; series := series r;
     rule_formater := rule_formater r;
     logger := Logger_Printf (logger r)
                 ("Detected " +:+ fmt_d count +:+ "/" +:+ fmt_d (len keys)
                    +:+ " series as old") |}.

(** The other hooks of the [Rule] interface leave the rule as it is;
    [WithLogger] does not install the logger it is given. [TSMReadOnly] and
    [storage.ShardInfo] are declared elsewhere in the code base. *)
Variable TSMReadOnly : Z.
Variable ShardInfo : Type.

Definition CheckMode (r : OldSeriesRule W) (check : bool) : OldSeriesRule W := r.
Definition Flags (r : OldSeriesRule W) : Z := TSMReadOnly.
Definition WithLogger (r : OldSeriesRule W) (logger : Logger)
  : OldSeriesRule W := r.
Definition Start (r : OldSeriesRule W) : OldSeriesRule W := r.
Definition StartShard (r : OldSeriesRule W) (info : ShardInfo)
  : OldSeriesRule W := r.
Definition EndShard (r : OldSeriesRule W) : option error := None.
Definition StartTSM (r : OldSeriesRule W) (path : string) : OldSeriesRule W := r.
Definition EndTSM (r : OldSeriesRule W) : OldSeriesRule W := r.
Definition StartWAL (r : OldSeriesRule W) (path : string) : OldSeriesRule W := r.
Definition EndWAL (r : OldSeriesRule W) : OldSeriesRule W := r.
Definition Print {W'} (r : OldSeriesRule W) (iow : W') : W' := iow.

(** The process environment of [Build]. *)
Variable time_Parse : string → string → time_Time + error.
Variable os_Stdout os_Stderr : W.
Variable os_Create : string → W + error.

Definition Build (c : OldSerieRuleConfig) : OldSeriesRule W + error :=
  match time_Parse time_RFC3339 (Time c) with
  | inr err => inr err
  | inl t =>
      let opened : W + error :=
        if decide (Out c = "") then inl os_Stdout
        else if decide (Out c = "stdout") then inl os_Stdout
        else if decide (Out c = "stderr") then inl os_Stderr
        else os_Create (Out c) in
      match opened with
      | inr err => inr err
      | inl out =>
          let format := if decide (Format c ≠ "") then Format c else "text" in
          match newFormater format (Timestamp c) (TimestampLayout c) with
          | inr err => inr err
          | inl formater => inl (newOldSeriesRule t out formater)
          end
      end
  end.

(** The traversal engine, seen from the rule: a sequence of [Apply] calls,
    stopped by the first panic. *)
Fixpoint ApplyAll (r : OldSeriesRule W) (calls : list (bytes * list Value))
  : result (OldSeriesRule W) :=
  match calls with
  | [] => Ok r
  | (key, values) :: calls =>
      x ←! Apply r key values;
      ApplyAll x.1 calls
  end.

(** The candidate maxima that the calls contribute to the series [s]. *)
Definition candidate (s : string) (call : bytes * list Value) : option Z :=
  if decide ((SeriesAndFieldFromCompositeKey call.1).1 = s)
  then UnixNano <$> last call.2
  else None.

Definition candidates (s : string) (calls : list (bytes * list Value))
  : list Z := omap (candidate s) calls.

(** The series the calls name. *)
Definition observed (calls : list (bytes * list Value)) : gset string :=
  list_to_set ((λ call, (SeriesAndFieldFromCompositeKey call.1).1) <$> calls).
End Rule.

(** The greatest element of a list of timestamps, if it has one. *)
Definition maximum (ts : list Z) : option Z :=
  foldr (λ t acc, Some (from_option (Z.max t) t acc)) None ts.

(** ** Notions used to state the properties *)

(** The greater of two optional timestamps. *)
Definition omax (x y : option Z) : option Z :=
  union_with (λ a b, Some (Z.max a b)) x y.

(** The update that one [Apply] call makes to the accumulation map. *)
Definition bump (s : string) (maxTs : Z) (m : gmap string Z) : gmap string Z :=
  match m !! s with
  | Some ts => if decide (maxTs > ts) then <[s := maxTs]> m else m
  | None => <[s := maxTs]> m
  end.

(** Two states of a rule that differ at most in the accumulation map. *)
Definition same_setup {W} (r r' : OldSeriesRule W) : Prop :=
  unixNano r' = unixNano r ∧ out r' = out r ∧
  rule_formater r' = rule_formater r ∧ logger r' = logger r.

(** ** Sample data *)

(** A rule as [NewOldSeriesRule] makes it, writing text lines to a buffer,
    with threshold 100 ns. *)
Definition sample_rule : OldSeriesRule Buffer :=
  {| unixNano := 100;
     out := mkBuffer "";
     series := ∅;
     rule_formater := TextFormater (mkTextFormater false "");
     logger := mkLogger [] |}.

(** Three blocks of two series; the block of [mem] carries a later sample. *)
Definition sample_calls : list (bytes * list Value) :=
  [ ("cpu#!~#load", [mkValue 50; mkValue 90]);
    ("mem#!~#used", [mkValue 101]);
    ("cpu#!~#idle", [mkValue 100]) ].

(** The keys of the accumulation map that [End] reports, in ascending order:
    those whose last-seen timestamp is at or before the threshold. *)
Definition stale_keys (m : gmap string Z) (threshold : Z) : list string :=
  filter (λ key, default 0 (m !! key) ≤ threshold)
    (sort_Strings (map_to_list m).*1).

(** The entries of the accumulation map at or before the threshold. *)
Definition stale (m : gmap string Z) (threshold : Z) : gmap string Z :=
  filter (λ kv, kv.2 ≤ threshold) m.

(** The message of the summary: [Detected %d/%d series as old]. *)
Definition summary (count total : Z) : string :=
  "Detected " +:+ pretty count +:+ "/" +:+ pretty total +:+ " series as old".

(** One report line: what [End] does with the destination for a key. *)
Definition emit `{TimeEnv} `{JsonEnv} `{Writer W} (it : MapIter)
    (r : OldSeriesRule W) (w : W) (key : string) : W :=
  (format it (rule_formater r) w key (default 0 (series r !! key))).1.

(** The same rule on another destination. *)
Definition with_out {W W'} (r : OldSeriesRule W) (w : W') : OldSeriesRule W' :=
  {| unixNano := unixNano r; out := w; series := series r;
     rule_formater := rule_formater r; logger := logger r |}.

(** Ascending order without repetition. *)
Definition ascending (keys : list string) : Prop :=
  StronglySorted (strict String.le) keys.

(** Two iteration orders: that of [map_to_list], and its reverse. *)
Program Definition map_order : MapIter :=
  {| range := λ V m, map_to_list m |}.
Next Obligation. done. Qed.

Program Definition reverse_order : MapIter :=
  {| range := λ V m, reverse (map_to_list m) |}.
Next Obligation. intros V m. apply reverse_Permutation. Qed.

(** A process in UTC; its [Format] is given on the layouts that have no
    layout element, which are copied as they are. *)
Definition UTC_env : TimeEnv :=
  {| time_Local := time_UTC; Format_layout := λ _ layout, layout |}.

(** The JSON literal of a string that needs no escape: the string between
    double quotes. *)
Definition double_quote : string := String (ascii_of_nat 34) "".
Definition plain_literal : JsonEnv := λ s, double_quote +:+ s +:+ double_quote.

(** The rule after the sample blocks. *)
Definition sample_result : OldSeriesRule Buffer :=
  {| unixNano := 100;
     out := mkBuffer "";
     series := {[ "cpu" := 100; "mem" := 101 ]};
     rule_formater := TextFormater (mkTextFormater false "");
     logger := mkLogger [] |}.

(** The destination that [Build] opens for a configuration. *)
Definition destination {W} (os_Stdout os_Stderr : W)
    (os_Create : string → W + error) (c : OldSerieRuleConfig) : W + error :=
  if decide (Out c = "") then inl os_Stdout
  else if decide (Out c = "stdout") then inl os_Stdout
  else if decide (Out c = "stderr") then inl os_Stderr
  else os_Create (Out c).

Definition with_Format (c : OldSerieRuleConfig) (format : string)
  : OldSerieRuleConfig :=
  {| Time := Time c; Out := Out c; Format := format;
     Timestamp := Timestamp c; TimestampLayout := TimestampLayout c |}.

(** A process environment for [Build]: a parser that knows one instant, and
    a file system in which no file can be created. *)
Definition sample_Parse (layout value : string) : time_Time + error :=
  if decide (value = "1970-01-01T00:00:00Z") then inl (mkTime 0 0 time_UTC)
  else inr (ParseError layout value).

Definition sample_config : OldSerieRuleConfig :=
  {| Time := "1970-01-01T00:00:00Z"; Out := "stdout"; Format := "xml";
     Timestamp := true; TimestampLayout := "RFC3339" |}.

(** The line of the JSON formater: the object with the key [Serie] and,
    when timestamps are enabled, the key [Timestamp] after it. *)
Definition json_line `{TimeEnv} `{JsonEnv} (f : jsonFormater) (serie : string)
    (timestamp : Z) : string :=
  "{" +:+ encodeString "Serie" +:+ ":" +:+ encodeString serie
    +:+ (if json_withTimestamp f
         then "," +:+ encodeString "Timestamp" +:+ ":"
                +:+ encodeString
                      (formatTimestamp timestamp (json_timestampLayout f))
         else "")
    +:+ "}" +:+ newline.

(** The Unicode scalar values: the code points that are not surrogates. *)
Definition valid_scalar (v : Z) : Prop :=
  0 ≤ v ≤ maxRune ∧ ¬ (surrogateMin ≤ v ≤ surrogateMax).

(** The lines of a text report without timestamps. *)
Definition text_lines (keys : list string) : string :=
  foldr (λ key rest, key +:+ newline +:+ rest) "" keys.

(** ** The rest of the life cycle *)

(** The timestamps of every sample of the blocks of the series [s]. *)
Definition samples (SeriesAndFieldFromCompositeKey : bytes → bytes * bytes)
    (s : string) (calls : list (bytes * list Value)) : list Z :=
  calls ≫= λ call,
    if decide ((SeriesAndFieldFromCompositeKey call.1).1 = s)
    then UnixNano <$> call.2 else [].

(** A block whose samples are in non-decreasing order of timestamp. *)
Definition ordered_block (values : list Value) : Prop :=
  Sorted Z.le (UnixNano <$> values).

(** The calls that the traversal engine makes on a rule before [End]: the
    hooks of the [Rule] interface and [Apply]. *)
Inductive hook (ShardInfo : Type) : Type :=
  | OnCheckMode (check : bool)
  | OnWithLogger (logger : Logger)
  | OnStart
  | OnStartShard (info : ShardInfo)
  | OnEndShard
  | OnStartTSM (path : string)
  | OnEndTSM
  | OnStartWAL (path : string)
  | OnEndWAL
  | OnApply (key : bytes) (values : list Value).
Arguments OnCheckMode {ShardInfo}.
Arguments OnWithLogger {ShardInfo}.
Arguments OnStart {ShardInfo}.
Arguments OnStartShard {ShardInfo}.
Arguments OnEndShard {ShardInfo}.
Arguments OnStartTSM {ShardInfo}.
Arguments OnEndTSM {ShardInfo}.
Arguments OnStartWAL {ShardInfo}.
Arguments OnEndWAL {ShardInfo}.
Arguments OnApply {ShardInfo}.

Definition call_hook {W ShardInfo}
    (SeriesAndFieldFromCompositeKey : bytes → bytes * bytes)
    (r : OldSeriesRule W) (h : hook ShardInfo) : result (OldSeriesRule W) :=
  match h with
  | OnCheckMode check => Ok (CheckMode r check)
  | OnWithLogger logger => Ok (WithLogger r logger)
  | OnStart => Ok (Start r)
  | OnStartShard info => Ok (StartShard ShardInfo r info)
  | OnEndShard => let _ := EndShard r in Ok r
  | OnStartTSM path => Ok (StartTSM r path)
  | OnEndTSM => Ok (EndTSM r)
  | OnStartWAL path => Ok (StartWAL r path)
  | OnEndWAL => Ok (EndWAL r)
  | OnApply key values =>
      x ←! Apply SeriesAndFieldFromCompositeKey r key values; Ok x.1
  end.

Fixpoint traverse {W ShardInfo}
    (SeriesAndFieldFromCompositeKey : bytes → bytes * bytes)
    (r : OldSeriesRule W) (hooks : list (hook ShardInfo))
  : result (OldSeriesRule W) :=
  match hooks with
  | [] => Ok r
  | h :: hooks =>
      r ←! call_hook SeriesAndFieldFromCompositeKey r h;
      traverse SeriesAndFieldFromCompositeKey r hooks
  end.

(** The [Apply] calls among the hooks. *)
Definition applies {ShardInfo} (hooks : list (hook ShardInfo))
  : list (bytes * list Value) :=
  omap (λ h, match h with
             | OnApply key values => Some (key, values)
             | _ => None
             end) hooks.

(** [Build] with the file system in view: [os.Create] changes it, and
    returns the file or an error. *)
Definition Build_fs {W FS : Type} (logging_GetLogger : string → Logger)
    (time_Parse : string → string → time_Time + error) (os_Stdout os_Stderr : W)
    (os_Create : FS → string → FS * (W + error))
    (fs : FS) (c : OldSerieRuleConfig) : FS * (OldSeriesRule W + error) :=
  match time_Parse time_RFC3339 (Time c) with
  | inr err => (fs, inr err)
  | inl t =>
      let '(fs, opened) :=
        if decide (Out c = "") then (fs, inl os_Stdout)
        else if decide (Out c = "stdout") then (fs, inl os_Stdout)
        else if decide (Out c = "stderr") then (fs, inl os_Stderr)
        else os_Create fs (Out c) in
      match opened with
      | inr err => (fs, inr err)
      | inl out =>
          let format := if decide (Format c ≠ "") then Format c else "text" in
          match newFormater format (Timestamp c) (TimestampLayout c) with
          | inr err => (fs, inr err)
          | inl formater =>
              (fs, inl (newOldSeriesRule logging_GetLogger t out formater))
          end
      end
  end.

(** A file system in which every path can be created: the files and their
    contents; a created file is empty. *)
Definition sample_Create (fs : gmap string string) (path : string)
  : gmap string string * (Buffer + error) :=
  (<[ path := "" ]> fs, inl (mkBuffer "")).

Definition sample_json_config : OldSerieRuleConfig :=
  {| Time := "1970-01-01T00:00:00Z"; Out := "stderr"; Format := "json";
     Timestamp := true; TimestampLayout := "RFC3339" |}.

Definition sample_file_config : OldSerieRuleConfig :=
  {| Time := "1970-01-01T00:00:00Z"; Out := "old.log"; Format := "xml";
     Timestamp := false; TimestampLayout := "" |}.

(** A process whose local zone is five and a half hours east of UTC. *)
Definition offset_env : TimeEnv :=
  {| time_Local := λ _, 19800; Format_layout := λ _ layout, layout |}.

(** * Properties *)

(** ** Slices and maxima *)

Lemma len_nonneg {A} (l : list A) : 0 ≤ len l.
Proof. unfold len. lia. Qed.

Lemma index_last {A} (l : list A) :
  l ≠ [] → ∃ x, last l = Some x ∧ index l (len l - 1) = Ok x.
Proof.
  intros Hl. destruct (last l) as [x|] eqn:Hlast.
  - exists x. split; [done|]. unfold index, len.
    rewrite last_lookup in Hlast.
    assert (length l ≠ 0%nat) by (by destruct l).
    replace (Z.to_nat (Z.of_nat (length l) - 1)) with (pred (length l)) by lia.
    rewrite Hlast. case_decide; [done|lia].
  - by apply last_None in Hlast.
Qed.

Lemma index_nil {A} : index (@nil A) (len (@nil A) - 1) = Panic "index out of range".
Proof. reflexivity. Qed.

Lemma omax_comm x y : omax x y = omax y x.
Proof. destruct x, y; simpl; f_equal; lia. Qed.

Lemma omax_assoc x y z : omax x (omax y z) = omax (omax x y) z.
Proof. destruct x, y, z; simpl; f_equal; lia. Qed.

Lemma omax_None_r x : omax x None = x.
Proof. by destruct x. Qed.

Lemma maximum_cons t ts : maximum (t :: ts) = omax (Some t) (maximum ts).
Proof. unfold maximum. simpl. by destruct (foldr _ _ _). Qed.

Lemma maximum_app ts1 ts2 : maximum (ts1 ++ ts2) = omax (maximum ts1) (maximum ts2).
Proof.
  induction ts1 as [|t ts1 IH].
  { rewrite app_nil_l. change (maximum []) with (@None Z).
    by destruct (maximum ts2). }
  rewrite <- app_comm_cons, !maximum_cons, IH. apply omax_assoc.
Qed.

(** [maximum] is the greatest element: it occurs in the list and bounds it. *)
Lemma maximum_None ts : maximum ts = None ↔ ts = [].
Proof.
  destruct ts as [|t ts]; [done|]. rewrite maximum_cons.
  by destruct (maximum ts).
Qed.

Lemma maximum_Some ts m :
  maximum ts = Some m ↔ m ∈ ts ∧ Forall (λ t, t ≤ m) ts.
Proof.
  revert m. induction ts as [|t ts IH]; intros m.
  - split; [done|]. intros [Hin _]. by apply elem_of_nil in Hin.
  - rewrite maximum_cons, elem_of_cons, Forall_cons.
    destruct (maximum ts) as [m'|] eqn:Hm; simpl.
    + destruct (IH m') as [[Hin Hall]%(λ f, f eq_refl) _].
      rewrite Forall_forall in Hall.
      split.
      * intros [= <-]. split; [|split; [lia|]].
        -- destruct (Z.max_spec t m') as [[_ ->]|[_ ->]]; auto.
        -- apply Forall_forall. intros x Hx%Hall. lia.
      * intros [Hmin [Htm Hmall]]. rewrite Forall_forall in Hmall.
        f_equal. specialize (Hmall _ Hin).
        destruct Hmin as [->|Hmin%Hall]; lia.
    + apply maximum_None in Hm as ->.
      split.
      * intros [= <-]. split; [by left|]. split; [lia|constructor].
      * intros [[->|Hin] _]; [done|]. by apply elem_of_nil in Hin.
Qed.

Lemma maximum_Permutation ts1 ts2 : ts1 ≡ₚ ts2 → maximum ts1 = maximum ts2.
Proof.
  induction 1 as [|t ts1 ts2 _ IH|t1 t2 ts|ts1 ts2 ts3 _ IH1 _ IH2].
  - done.
  - by rewrite !maximum_cons, IH.
  - rewrite !maximum_cons, !omax_assoc. f_equal. apply omax_comm.
  - by rewrite IH1.
Qed.

(** ** Accumulation *)

Lemma lookup_bump s maxTs (m : gmap string Z) s' :
  bump s maxTs m !! s' =
    if decide (s = s') then omax (Some maxTs) (m !! s') else m !! s'.
Proof.
  unfold bump. case_decide as Hs.
  - subst s'. destruct (m !! s) as [ts|] eqn:Hm; simpl.
    + case_decide.
      * rewrite lookup_insert_eq. f_equal. lia.
      * rewrite Hm. f_equal. lia.
    + by rewrite lookup_insert_eq.
  - destruct (m !! s) as [ts|]; [case_decide|]; by rewrite ?lookup_insert_ne.
Qed.

Lemma dom_bump s maxTs (m : gmap string Z) : dom (bump s maxTs m) = {[ s ]} ∪ dom m.
Proof.
  unfold bump. destruct (m !! s) as [ts|] eqn:Hm.
  - case_decide; [by rewrite dom_insert_L|].
    symmetry. apply subseteq_union_1_L, singleton_subseteq_l, elem_of_dom.
    eauto.
  - by rewrite dom_insert_L.
Qed.

Section Accumulation.
Context {W : Type}.
Variable decode : bytes → bytes * bytes.


Lemma same_setup_refl (r : OldSeriesRule W) : same_setup r r.
Proof. by repeat split. Qed.

Lemma same_setup_trans (r1 r2 r3 : OldSeriesRule W) :
  same_setup r1 r2 → same_setup r2 r3 → same_setup r1 r3.
Proof. unfold same_setup. intros (?&?&?&?) (?&?&?&?). repeat split; congruence. Qed.

Lemma Apply_nonempty (r : OldSeriesRule W) key values v :
  last values = Some v →
  ∃ r', Apply decode r key values = Ok (r', (None, None, None)) ∧
        series r' = bump (decode key).1 (UnixNano v) (series r) ∧
        same_setup r r'.
Proof.
  intros Hlast. unfold Apply.
  destruct (decode key) as [seriesKey field] eqn:Hkey; simpl.
  destruct (index_last values) as (v' & Hv' & ->); [by intros ->|].
  assert (v' = v) as -> by congruence. simpl.
  unfold bump. destruct (series r !! seriesKey) as [ts|]; [case_decide|];
    eexists; (split; [reflexivity|]); split; try done;
    by repeat split.
Qed.

Lemma Apply_nil (r : OldSeriesRule W) key : Apply decode r key [] = Panic "index out of range".
Proof. unfold Apply. by destruct (decode key). Qed.

Lemma Apply_panic_inv (r : OldSeriesRule W) key values msg :
  Apply decode r key values = Panic msg → values = [].
Proof.
  intros HP. destruct (last values) as [v|] eqn:Hlast.
  - destruct (Apply_nonempty r key values v Hlast) as (r' & Hr' & _).
    congruence.
  - by apply last_None.
Qed.
Lemma ApplyAll_nonempty calls (r : OldSeriesRule W) :
  Forall (λ call, call.2 ≠ []) calls →
  ∃ r', ApplyAll decode r calls = Ok r' ∧ same_setup r r' ∧
    (∀ s, series r' !! s
          = omax (series r !! s) (maximum (candidates decode s calls))) ∧
    dom (series r') = dom (series r) ∪ observed decode calls.
Proof.
  intros Hcalls. revert r.
  induction Hcalls as [|[key values] calls Hvalues _ IH]; intros r.
  - exists r. split; [done|]. split; [apply same_setup_refl|]. split.
    + intros s. by rewrite omax_None_r.
    + unfold observed. simpl. by rewrite (right_id_L ∅ (∪)).
  - simpl in Hvalues. destruct (last values) as [v|] eqn:Hlast;
      [|by apply last_None in Hlast].
    destruct (Apply_nonempty r key values v Hlast) as (r1 & Hr1 & Hs1 & Hsetup1).
    destruct (IH r1) as (r' & Hr' & Hsetup' & Hlookup & Hdom).
    exists r'. simpl. rewrite Hr1. simpl. split; [done|].
    split; [by eapply same_setup_trans|]. split.
    + intros s. rewrite Hlookup, Hs1, lookup_bump.
      unfold candidates, candidate. simpl. rewrite Hlast. simpl.
      case_decide; [|done].
      rewrite maximum_cons.
      destruct (series r !! s) as [ts|], (maximum _) as [m|]; simpl;
        f_equal; lia.
    + rewrite Hdom, Hs1, dom_bump. unfold observed. simpl.
      rewrite (assoc_L (∪)). f_equal. apply (comm_L (∪)).
Qed.

Lemma candidates_Permutation s calls calls' :
  calls ≡ₚ calls' → candidates decode s calls ≡ₚ candidates decode s calls'.
Proof. intros Hp. unfold candidates. by rewrite Hp. Qed.

(** C1. Whatever the order of the [Apply] calls on non-empty blocks, the
    value stored for a series is the maximum of what was stored before and
    of the last timestamps of the blocks of that series; on a fresh rule it
    is the maximum of these candidates alone. A stored value is never
    lowered. *)
Theorem Apply_accumulates_maximum (r : OldSeriesRule W) calls S :
  Forall (λ call, call.2 ≠ []) calls →
  ∃ r', ApplyAll decode r calls = Ok r' ∧
    series r' !! S = omax (series r !! S) (maximum (candidates decode S calls)) ∧
    (series r = ∅ → series r' !! S = maximum (candidates decode S calls)) ∧
    (∀ t, series r !! S = Some t → ∃ t', series r' !! S = Some t' ∧ t ≤ t') ∧
    (∀ calls', calls' ≡ₚ calls →
       ∃ r'', ApplyAll decode r calls' = Ok r'' ∧ series r'' = series r').
Proof.
  intros Hcalls.
  destruct (ApplyAll_nonempty calls r Hcalls) as (r' & Hr' & _ & Hlookup & _).
  exists r'. split; [done|]. split; [apply Hlookup|]. split; [|split].
  - intros Hempty. rewrite Hlookup, Hempty, lookup_empty.
    by destruct (maximum _).
  - intros t Ht. rewrite Hlookup, Ht.
    destruct (maximum _) as [m|]; simpl; eexists; (split; [done|]); lia.
  - intros calls' Hp.
    assert (Forall (λ call, call.2 ≠ []) calls') as Hcalls' by by rewrite Hp.
    destruct (ApplyAll_nonempty calls' r Hcalls') as (r'' & Hr'' & _ & Hlookup' & _).
    exists r''. split; [done|]. apply map_eq. intros s.
    rewrite Hlookup, Hlookup'. f_equal.
    by apply maximum_Permutation, candidates_Permutation.
Qed.

(** C3, as amended. On every key and every non-empty block [Apply] returns
    [(nil, nil, nil)]; and on every input, whenever [Apply] returns at all,
    it returns [(nil, nil, nil)]: no rewrite, no error. *)
Theorem Apply_read_only (r : OldSeriesRule W) key values :
  values ≠ [] →
  (∃ r', Apply decode r key values = Ok (r', (None, None, None))) ∧
  (∀ key' values' r' rw, Apply decode r key' values' = Ok (r', rw) → rw = (None, None, None)).
Proof.
  intros Hvalues. split.
  - destruct (last values) as [v|] eqn:Hlast; [|by apply last_None in Hlast].
    destruct (Apply_nonempty r key values v Hlast) as (r' & Hr' & _). eauto.
  - intros key' values' r' rw Hrw.
    destruct (last values') as [v|] eqn:Hlast.
    + destruct (Apply_nonempty r key' values' v Hlast) as (r1 & Hr1 & _).
      congruence.
    + apply last_None in Hlast as ->. by rewrite Apply_nil in Hrw.
Qed.

(** C8. On a non-empty block the index of the last element is in bounds,
    the element is read and [Apply] returns; [Apply] has no guard, so that
    it panics on the empty block, and on no other. *)
Theorem Apply_last_in_bounds (r : OldSeriesRule W) key values :
  values ≠ [] →
  0 ≤ len values - 1 < len values ∧
  (∃ v, index values (len values - 1) = Ok v ∧ last values = Some v) ∧
  (∃ r', Apply decode r key values = Ok (r', (None, None, None))) ∧
  (∀ values' msg, Apply decode r key values' = Panic msg ↔
                    values' = [] ∧ msg = "index out of range").
Proof.
  intros Hvalues.
  destruct (index_last values Hvalues) as (v & Hlast & Hindex).
  split; [|split; [|split]].
  - assert (length values ≠ 0%nat) by (by destruct values). unfold len. lia.
  - eauto.
  - destruct (Apply_nonempty r key values v Hlast) as (r' & Hr' & _). eauto.
  - intros values' msg. split.
    + intros HP. pose proof (Apply_panic_inv _ _ _ _ HP) as ->.
      rewrite Apply_nil in HP. split; [done|congruence].
    + intros [-> ->]. apply Apply_nil.
Qed.
Lemma ApplyAll_Ok_inv calls (r r' : OldSeriesRule W) :
  ApplyAll decode r calls = Ok r' → Forall (λ call, call.2 ≠ []) calls.
Proof.
  revert r. induction calls as [|[key values] calls IH]; intros r Hr';
    [constructor|].
  simpl in Hr'. destruct values as [|v values].
  - by rewrite Apply_nil in Hr'.
  - constructor; [done|]. destruct (Apply decode r key (v :: values)); [|done].
    by eapply IH.
Qed.

(** From a fresh rule, the keys of the accumulation map are the series that
    the calls name. *)
Lemma ApplyAll_dom calls (r r' : OldSeriesRule W) :
  series r = ∅ → ApplyAll decode r calls = Ok r' →
  dom (series r') = observed decode calls ∧ same_setup r r'.
Proof.
  intros Hempty Hr'.
  destruct (ApplyAll_nonempty calls r (ApplyAll_Ok_inv _ _ _ Hr'))
    as (r'' & Hr'' & Hsetup & _ & Hdom).
  assert (r'' = r') as -> by congruence. split; [|done].
  by rewrite Hdom, Hempty, dom_empty_L, (left_id_L ∅ (∪)).
Qed.
End Accumulation.

(** Witness of C1 on the sample blocks: [cpu] is seen at 90 and at 100. *)
Lemma Apply_accumulates_maximum_witness :
  Forall (λ call : bytes * list Value, call.2 ≠ []) sample_calls ∧
  ∃ r', ApplyAll tsm1_SeriesAndFieldFromCompositeKey sample_rule sample_calls
          = Ok r' ∧ series r' !! "cpu" = Some 100.
Proof.
  assert (Forall (λ call : bytes * list Value, call.2 ≠ []) sample_calls) as H.
  { repeat constructor; discriminate. }
  split; [exact H|].
  destruct (Apply_accumulates_maximum tsm1_SeriesAndFieldFromCompositeKey
              sample_rule sample_calls "cpu" H) as (r' & Hr' & Hlookup & _).
  exists r'. split; [exact Hr'|]. rewrite Hlookup. reflexivity.
Defined.

(** C3 as stated fails: on the empty block [Apply] panics and returns
    nothing. *)
Lemma Apply_empty_block_panics :
  ¬ ∀ (r : OldSeriesRule Buffer) (key : bytes) (values : list Value),
      ∃ r', Apply tsm1_SeriesAndFieldFromCompositeKey r key values
              = Ok (r', (None, None, None)).
Proof.
  intros H. destruct (H sample_rule "cpu#!~#load" []) as [r' Hr'].
  discriminate Hr'.
Qed.

Lemma Apply_read_only_witness :
  [mkValue 50; mkValue 90] ≠ [] ∧
  ∃ r', Apply tsm1_SeriesAndFieldFromCompositeKey sample_rule "cpu#!~#load"
          [mkValue 50; mkValue 90] = Ok (r', (None, None, None)).
Proof.
  assert ([mkValue 50; mkValue 90] ≠ []) as H by discriminate.
  split; [exact H|].
  exact (proj1 (Apply_read_only tsm1_SeriesAndFieldFromCompositeKey
                  sample_rule "cpu#!~#load" _ H)).
Defined.

Lemma Apply_last_in_bounds_witness :
  [mkValue 101] ≠ [] ∧
  0 ≤ len [mkValue 101] - 1 < len [mkValue 101].
Proof.
  assert ([mkValue 101] ≠ []) as H by discriminate.
  split; [exact H|].
  exact (proj1 (Apply_last_in_bounds tsm1_SeriesAndFieldFromCompositeKey
                  sample_rule "mem#!~#used" _ H)).
Defined.

(** ** The terminal report *)

Lemma sort_Strings_Permutation keys : sort_Strings keys ≡ₚ keys.
Proof. apply merge_sort_Permutation. Qed.

Lemma sort_Strings_Sorted keys : Sorted String.le (sort_Strings keys).
Proof. apply (Sorted_merge_sort String.le). Qed.

(** The result of sorting does not depend on the order of the input. *)
Lemma sort_Strings_unique keys keys' :
  keys ≡ₚ keys' → sort_Strings keys = sort_Strings keys'.
Proof.
  intros Hp. apply (Sorted_unique String.le); try apply sort_Strings_Sorted.
  by rewrite !sort_Strings_Permutation.
Qed.

Lemma sorted_range (it : MapIter) {V} (m : gmap string V) :
  sort_Strings (range it m).*1 = sort_Strings (map_to_list m).*1.
Proof. apply sort_Strings_unique. by rewrite range_Permutation. Qed.

Lemma sorted_keys_NoDup {V} (m : gmap string V) :
  NoDup (sort_Strings (map_to_list m).*1).
Proof. rewrite sort_Strings_Permutation. apply NoDup_fst_map_to_list. Qed.

Lemma elem_of_sorted_keys {V} (m : gmap string V) key :
  key ∈ sort_Strings (map_to_list m).*1 ↔ is_Some (m !! key).
Proof.
  rewrite sort_Strings_Permutation, list_elem_of_fmap. split.
  - intros ([k v] & -> & Hkv%elem_of_map_to_list). eauto.
  - intros [v Hv]. exists (key, v). split; [done|]. by apply elem_of_map_to_list.
Qed.

Lemma len_sorted_keys {V} (m : gmap string V) :
  len (sort_Strings (map_to_list m).*1) = Z.of_nat (size m).
Proof.
  unfold len. by rewrite sort_Strings_Permutation, length_fmap, length_map_to_list.
Qed.

(** A sorted list without repetition is strictly ascending. *)
Lemma Sorted_NoDup_ascending keys :
  Sorted String.le keys → NoDup keys → ascending keys.
Proof.
  intros Hs%(Sorted_StronglySorted String.le). unfold ascending.
  induction Hs as [|key keys Hs IH Hall]; intros Hnd; [constructor|].
  apply NoDup_cons in Hnd as [Hnotin Hnd]. constructor; [auto|].
  rewrite Forall_forall in Hall. apply Forall_forall. intros key' Hin.
  split; [auto|]. intros Hle. specialize (Hall _ Hin).
  assert (key = key') as -> by (by apply (anti_symm String.le)). done.
Qed.

Lemma ascending_filter (P : string → Prop) `{!∀ key, Decision (P key)} keys :
  ascending keys → ascending (filter P keys).
Proof.
  unfold ascending. induction 1 as [|key keys Hs IH Hall]; [constructor|].
  rewrite filter_cons. case_decide; [|done]. constructor; [done|].
  rewrite Forall_forall in Hall. apply Forall_forall.
  intros key' [_ Hin]%list_elem_of_filter. auto.
Qed.

Lemma stale_keys_ascending m threshold : ascending (stale_keys m threshold).
Proof.
  apply ascending_filter, Sorted_NoDup_ascending;
    [apply sort_Strings_Sorted|apply sorted_keys_NoDup].
Qed.

Lemma elem_of_stale_keys m threshold key :
  key ∈ stale_keys m threshold ↔
    ∃ lastSeen, m !! key = Some lastSeen ∧ lastSeen ≤ threshold.
Proof.
  unfold stale_keys. rewrite list_elem_of_filter, elem_of_sorted_keys. split.
  - intros [Hle [lastSeen Hkey]]. rewrite Hkey in Hle. eauto.
  - intros (lastSeen & Hkey & Hle). rewrite Hkey. eauto.
Qed.

Lemma length_stale_keys m threshold :
  length (stale_keys m threshold) = size (stale m threshold).
Proof.
  rewrite <- length_map_to_list, <- (length_fmap fst).
  apply Permutation_length, NoDup_Permutation.
  - apply NoDup_filter, sorted_keys_NoDup.
  - apply NoDup_fst_map_to_list.
  - intros key. rewrite elem_of_stale_keys, list_elem_of_fmap. split.
    + intros (lastSeen & Hkey & Hle). exists (key, lastSeen). split; [done|].
      apply elem_of_map_to_list. by apply map_lookup_filter_Some.
    + intros ([k v] & -> & Hkv%elem_of_map_to_list).
      apply map_lookup_filter_Some in Hkv as [Hkv Hle]. eauto.
Qed.

Section Report.
Context {W : Type} `{!Writer W} `{!TimeEnv} `{!JsonEnv}.
Implicit Types (r : OldSeriesRule W) (it : MapIter).

Lemma End_loop_filter it r keys w count :
  End_loop it r keys w count =
    let reported :=
      filter (λ key, default 0 (series r !! key) ≤ unixNano r) keys in
    (foldl (emit it r) w reported, count + len reported).
Proof.
  revert w count. induction keys as [|key keys IH]; intros w count; simpl.
  - f_equal. unfold len. simpl. lia.
  - rewrite filter_cons. case_decide as Hle.
    + cbn [foldl]. unfold emit at 2.
      destruct (format _ _ _ _ _) as [w' e]. rewrite IH. simpl. f_equal.
      unfold len. simpl. lia.
    + apply IH.
Qed.

(** What [End] does, whatever the iteration order of the map. *)
Lemma End_eq it r :
  End it r =
    let reported := stale_keys (series r) (unixNano r) in
    {| unixNano := unixNano r;
       out := foldl (emit it r) (out r) reported;
       series := series r;
       rule_formater := rule_formater r;
       logger := Logger_Printf (logger r)
                   (summary (len reported) (Z.of_nat (size (series r)))) |}.
Proof.
  unfold End. rewrite sorted_range, End_loop_filter, len_sorted_keys. reflexivity.
Qed.
End Report.

Section Report_claims.
Context {W : Type} `{!Writer W} `{!TimeEnv} `{!JsonEnv}.
Implicit Types (r : OldSeriesRule W) (it : MapIter).

(** C2. After the [Apply] calls on a fresh rule, [End] hands to the formater
    the keys of [stale_keys] in that order, each with its last-seen
    timestamp: they ascend in byte order, a series is among them iff its
    last-seen timestamp is at or before the threshold (the threshold itself
    is reported, its successor is not), and the total of the summary is the
    number of distinct series the calls named. Timestamps are the integers
    that [int64] holds; the successor is the integer one. *)
Theorem End_report (decode : bytes → bytes * bytes) it r0 r calls :
  series r0 = ∅ →
  ApplyAll decode r0 calls = Ok r →
  let reported := stale_keys (series r) (unixNano r) in
  out (End it r) = foldl (emit it r) (out r) reported ∧
  ascending reported ∧
  (∀ key, key ∈ reported ↔
     ∃ lastSeen, series r !! key = Some lastSeen ∧ lastSeen ≤ unixNano r) ∧
  (∀ key, series r !! key = Some (unixNano r) → key ∈ reported) ∧
  (∀ key, series r !! key = Some (unixNano r + 1) → key ∉ reported) ∧
  len (sort_Strings (range it (series r)).*1)
    = Z.of_nat (size (observed decode calls)) ∧
  entries (logger (End it r)) =
    entries (logger r) ++
      [summary (len reported) (Z.of_nat (size (observed decode calls)))].
Proof.
  intros Hempty Hr reported.
  destruct (ApplyAll_dom decode calls r0 r Hempty Hr) as [Hdom _].
  assert (size (series r) = size (observed decode calls)) as Hsize.
  { by rewrite <- Hdom, size_dom. }
  rewrite End_eq. simpl. fold reported.
  split; [done|]. split; [apply stale_keys_ascending|].
  split; [apply elem_of_stale_keys|]. split; [|split; [|split]].
  - intros key Hkey. apply elem_of_stale_keys. exists (unixNano r).
    split; [done|lia].
  - intros key Hkey (lastSeen & Hkey' & Hle)%elem_of_stale_keys.
    rewrite Hkey in Hkey'. injection Hkey' as <-. lia.
  - by rewrite sorted_range, len_sorted_keys, Hsize.
  - by rewrite Hsize.
Qed.

(** C4, as amended. [End] adds one message to the logger, [Detected M/N
    series as old] without a final period, where M counts the series at or
    before the threshold and N all the series; the destination receives the
    report lines and nothing else. *)
Theorem End_summary it r :
  entries (logger (End it r)) =
    entries (logger r) ++
      [ "Detected "
          +:+ pretty (Z.of_nat (size (stale (series r) (unixNano r))))
          +:+ "/" +:+ pretty (Z.of_nat (size (series r)))
          +:+ " series as old" ] ∧
  out (End it r)
    = foldl (emit it r) (out r) (stale_keys (series r) (unixNano r)).
Proof.
  rewrite End_eq. simpl. split; [|done].
  unfold len. by rewrite length_stale_keys.
Qed.
End Report_claims.

(** C4 as stated fails: the message has no final period. *)
Lemma End_summary_no_period :
  ¬ ∀ r : OldSeriesRule Buffer,
      entries (logger (@End Buffer _ UTC_env plain_literal map_order r)) =
        entries (logger r) ++
          [ "Detected "
              +:+ pretty (Z.of_nat (size (stale (series r) (unixNano r))))
              +:+ "/" +:+ pretty (Z.of_nat (size (series r)))
              +:+ " series as old." ].
Proof.
  intros H. specialize (H sample_rule). vm_compute in H. discriminate H.
Qed.

(** C10. [format] of the text formater returns [nil] on every destination,
    whatever [Write] returns; the counter of the report loop and the message
    of the summary are the same on any two destinations, and the message is
    determined by the accumulation map and the threshold. *)
Theorem write_errors_swallowed {W W' : Type} `{!Writer W} `{!Writer W'}
    `{!TimeEnv} `{!JsonEnv} (it : MapIter) (f : textFormater) (w : W)
    (serie : string) (timestamp : Z) (r : OldSeriesRule W) (w' : W')
    (keys : list string) (count : Z) :
  (textFormater_format f w serie timestamp).2 = None ∧
  (End_loop it r keys (out r) count).2
    = count + len (filter (λ key, default 0 (series r !! key) ≤ unixNano r) keys) ∧
  (End_loop it (with_out r w') keys w' count).2
    = (End_loop it r keys (out r) count).2 ∧
  logger (End it (with_out r w')) = logger (End it r) ∧
  logger (End it r) =
    Logger_Printf (logger r)
      (summary (Z.of_nat (size (stale (series r) (unixNano r))))
         (Z.of_nat (size (series r)))).
Proof.
  split; [|split; [|split; [|split]]].
  - unfold textFormater_format.
    destruct (text_withTimestamp f); by destruct (fmt_Fprint _ _).
  - by rewrite End_loop_filter.
  - by rewrite !End_loop_filter.
  - by rewrite !End_eq.
  - rewrite End_eq. simpl. unfold len. by rewrite length_stale_keys.
Qed.

Lemma End_report_witness :
  series sample_rule = ∅ ∧
  ApplyAll tsm1_SeriesAndFieldFromCompositeKey sample_rule sample_calls
    = Ok sample_result ∧
  entries (logger (@End Buffer _ UTC_env plain_literal reverse_order sample_result))
    = [ "Detected 1/2 series as old" ].
Proof.
  assert (ApplyAll tsm1_SeriesAndFieldFromCompositeKey sample_rule sample_calls
            = Ok sample_result) as H by (vm_compute; reflexivity).
  split; [reflexivity|]. split; [exact H|].
  destruct (@End_report Buffer _ UTC_env plain_literal
              tsm1_SeriesAndFieldFromCompositeKey reverse_order
              sample_rule sample_result sample_calls eq_refl H)
    as (_ & _ & _ & _ & _ & _ & Hlog).
  rewrite Hlog. vm_compute. reflexivity.
Defined.

(** The sample report on a buffer: one line, for the series [cpu]. *)
Example End_sample_output :
  contents (out (@End Buffer _ UTC_env plain_literal reverse_order sample_result))
    = "cpu" +:+ newline.
Proof. vm_compute. reflexivity. Qed.

(** ** Construction *)

Section Construction.
Context {W : Type}.
Variable logging_GetLogger : string → Logger.
Variable time_Parse : string → string → time_Time + error.
Variable os_Stdout os_Stderr : W.
Variable os_Create : string → W + error.

Lemma newFormater_unknown format withTimestamp timestampLayout :
  format ≠ "text" → format ≠ "json" →
  newFormater format withTimestamp timestampLayout
    = inr (Errorf ("Unknown format " +:+ format)).
Proof. intros. unfold newFormater. by repeat case_decide. Qed.

Lemma Build_eq c :
  Build logging_GetLogger time_Parse os_Stdout os_Stderr os_Create c =
    match time_Parse time_RFC3339 (Time c) with
    | inr err => inr err
    | inl t =>
        match destination os_Stdout os_Stderr os_Create c with
        | inr err => inr err
        | inl out =>
            match newFormater (if decide (Format c = "") then "text" else Format c)
                    (Timestamp c) (TimestampLayout c) with
            | inr err => inr err
            | inl formater => inl (newOldSeriesRule logging_GetLogger t out formater)
            end
        end
    end.
Proof.
  unfold Build, destination. destruct (time_Parse _ _); [|done].
  by repeat case_decide.
Qed.

(** C7. A format name other than [text] and [json] makes [newFormater],
    [NewOldSeriesRule] and [Build] return an error and no rule, so that no
    [Apply] or [format] can follow; an empty [Format] field is read as
    [text]; with an accepted name the construction fails only if the time
    does not parse or the destination cannot be opened. *)
Theorem unknown_format_rejected (c : OldSerieRuleConfig) (format : string)
    (withTimestamp : bool) (timestampLayout : string) (t : time_Time) (out : W) :
  (format ≠ "text" → format ≠ "json" →
     newFormater format withTimestamp timestampLayout
       = inr (Errorf ("Unknown format " +:+ format)) ∧
     NewOldSeriesRule logging_GetLogger t out format
       = inr (Errorf ("Unknown format " +:+ format)) ∧
     (format ≠ "" → Format c = format →
        (∃ err, Build logging_GetLogger time_Parse os_Stdout os_Stderr
                  os_Create c = inr err) ∧
        (time_Parse time_RFC3339 (Time c) = inl t →
         destination os_Stdout os_Stderr os_Create c = inl out →
         Build logging_GetLogger time_Parse os_Stdout os_Stderr os_Create c
           = inr (Errorf ("Unknown format " +:+ format))))) ∧
  (Format c = "" →
     Build logging_GetLogger time_Parse os_Stdout os_Stderr os_Create c
       = Build logging_GetLogger time_Parse os_Stdout os_Stderr os_Create
           (with_Format c "text")) ∧
  (format = "text" ∨ format = "json" →
     (∃ f, newFormater format withTimestamp timestampLayout = inl f) ∧
     (∃ f, NewOldSeriesRule logging_GetLogger t out format
             = inl (newOldSeriesRule logging_GetLogger t out f)) ∧
     (Format c = format →
      time_Parse time_RFC3339 (Time c) = inl t →
      destination os_Stdout os_Stderr os_Create c = inl out →
      ∃ f, newFormater format (Timestamp c) (TimestampLayout c) = inl f ∧
           Build logging_GetLogger time_Parse os_Stdout os_Stderr os_Create c
             = inl (newOldSeriesRule logging_GetLogger t out f))).
Proof.
  split; [|split].
  - intros Htext Hjson. split; [by apply newFormater_unknown|]. split.
    + unfold NewOldSeriesRule. by rewrite newFormater_unknown.
    + intros Hne Hc. rewrite Build_eq, Hc.
      rewrite decide_False by done. rewrite newFormater_unknown by done. split.
      * destruct (time_Parse _ _); [|eauto]. destruct (destination _ _ _ _); eauto.
      * by intros -> ->.
  - intros Hc. rewrite !Build_eq. simpl. by rewrite Hc.
  - intros Hformat. split; [|split].
    + unfold newFormater. destruct Hformat as [-> | ->]; simpl; eauto.
    + unfold NewOldSeriesRule, newFormater.
      destruct Hformat as [-> | ->]; simpl; eauto.
    + intros Hc Ht Hout. rewrite Build_eq, Hc, Ht, Hout.
      unfold newFormater. destruct Hformat as [-> | ->]; simpl; eauto.
Qed.
End Construction.

(** Witness of C7: the format name [xml]. *)
Lemma unknown_format_rejected_witness :
  "xml" ≠ "text" ∧ "xml" ≠ "json" ∧
  NewOldSeriesRule (λ _, mkLogger []) (mkTime 0 0 time_UTC) (mkBuffer "") "xml"
    = inr (Errorf "Unknown format xml") ∧
  Build (λ _, mkLogger []) sample_Parse (mkBuffer "") (mkBuffer "")
    (λ path, inr (PathError path)) sample_config
    = inr (Errorf "Unknown format xml").
Proof.
  assert ("xml" ≠ "text") as Htext by discriminate.
  assert ("xml" ≠ "json") as Hjson by discriminate.
  assert ("xml" ≠ "") as Hne by discriminate.
  destruct (unknown_format_rejected (λ _, mkLogger []) sample_Parse
              (mkBuffer "") (mkBuffer "") (λ path, inr (PathError path))
              sample_config "xml" false "" (mkTime 0 0 time_UTC) (mkBuffer ""))
    as [Hunknown _].
  destruct (Hunknown Htext Hjson) as (_ & Hnew & Hbuild).
  destruct (Hbuild Hne eq_refl) as [_ Hbuild'].
  split; [exact Htext|]. split; [exact Hjson|]. split; [exact Hnew|].
  exact (Hbuild' eq_refl eq_refl).
Defined.

(** On a destination whose every write fails, the text formater still
    returns [nil] and [End] still counts the series and logs the summary. *)
Example closed_destination_sample :
  Write closed ("cpu" +:+ newline) = (closed, (0, Some WriteError)) ∧
  @textFormater_format UTC_env Closed _ (mkTextFormater false "") closed "cpu" 100
    = (closed, None) ∧
  logger (@End Closed _ UTC_env plain_literal map_order
            (with_out sample_result closed))
    = mkLogger [ "Detected 1/2 series as old" ].
Proof. repeat split; vm_compute; reflexivity. Qed.

(** ** The JSON formater *)

Lemma string_app_nil_r s : s +:+ "" = s.
Proof. induction s as [|a s IH]; [done|]. cbv [String.append] in *. by f_equal. Qed.

Lemma string_app_assoc s1 s2 s3 : (s1 +:+ s2) +:+ s3 = s1 +:+ s2 +:+ s3.
Proof.
  induction s1 as [|a s1 IH]; [done|].
  change (String a (s1 +:+ s2) +:+ s3 = String a (s1 +:+ s2 +:+ s3)).
  change (String a ((s1 +:+ s2) +:+ s3) = String a (s1 +:+ s2 +:+ s3)).
  by f_equal.
Qed.

(** The entries of a map have one sorted enumeration. *)
Lemma sorted_entries_unique {V} (m : gmap string V) l1 l2 :
  l1 ≡ₚ map_to_list m → l2 ≡ₚ map_to_list m →
  Sorted key_le l1 → Sorted key_le l2 → l1 = l2.
Proof.
  intros Hl1 Hl2 Hs1 Hs2. apply (Sorted_unique_strong key_le); try done.
  - intros [k1 v1] [k2 v2] Hin1 Hin2 Hle Hge. unfold key_le in *. simpl in *.
    assert (k1 = k2) as -> by (by apply (anti_symm String.le)).
    rewrite Hl1 in Hin1. rewrite Hl2 in Hin2.
    apply elem_of_map_to_list in Hin1, Hin2. congruence.
  - by rewrite Hl1, Hl2.
Qed.

Lemma sorted_range_entries (it : MapIter) {V} (m : gmap string V) l :
  l ≡ₚ map_to_list m → Sorted key_le l → merge_sort key_le (range it m) = l.
Proof.
  intros Hl Hs. apply (sorted_entries_unique m); try done.
  - by rewrite merge_sort_Permutation, range_Permutation.
  - apply (Sorted_merge_sort key_le).
Qed.

(** [json.Marshal] does not depend on the iteration order of the map. *)
Lemma json_Marshal_deterministic `{JsonEnv} (it1 it2 : MapIter) data :
  json_Marshal it1 data = json_Marshal it2 data.
Proof.
  unfold json_Marshal.
  rewrite (sorted_range_entries it1 data (merge_sort key_le (range it2 data)));
    [done| |apply (Sorted_merge_sort key_le)].
  by rewrite merge_sort_Permutation, range_Permutation.
Qed.

Lemma json_Marshal_Serie `{JsonEnv} (it : MapIter) serie :
  json_Marshal it {[ "Serie" := AString serie ]} =
    inl ("{" +:+ encodeString "Serie" +:+ ":" +:+ encodeString serie +:+ "}").
Proof.
  unfold json_Marshal.
  rewrite (sorted_range_entries it _ [("Serie", AString serie)]).
  - simpl. by rewrite string_app_nil_r, !string_app_assoc.
  - by rewrite map_to_list_singleton.
  - repeat constructor.
Qed.

Lemma json_Marshal_Serie_Timestamp `{JsonEnv} (it : MapIter) serie rendered :
  json_Marshal it (<[ "Timestamp" := AString rendered ]>
                     {[ "Serie" := AString serie ]}) =
    inl ("{" +:+ encodeString "Serie" +:+ ":" +:+ encodeString serie
           +:+ "," +:+ encodeString "Timestamp" +:+ ":"
           +:+ encodeString rendered +:+ "}").
Proof.
  unfold json_Marshal.
  rewrite (sorted_range_entries it _
             [("Serie", AString serie); ("Timestamp", AString rendered)]).
  - simpl. by rewrite string_app_nil_r, !string_app_assoc.
  - rewrite map_to_list_insert by done. rewrite map_to_list_singleton.
    apply perm_swap.
  - repeat constructor.
Qed.

Lemma jsonFormater_format_line {W : Type} `{!Writer W} `{!TimeEnv} `{!JsonEnv}
    (it : MapIter) (f : jsonFormater) (w : W) (serie : string) (timestamp : Z) :
  jsonFormater_format it f w serie timestamp
    = ((fmt_Fprint w (json_line f serie timestamp)).1, None).
Proof.
  unfold jsonFormater_format, jsonFormater_formatLine, json_line.
  destruct (json_withTimestamp f).
  - rewrite json_Marshal_Serie_Timestamp, !string_app_assoc.
    by destruct (fmt_Fprint _ _).
  - rewrite json_Marshal_Serie, !string_app_assoc.
    by destruct (fmt_Fprint _ _).
Qed.

(** C9, as amended. In a process with a given local time zone, the JSON
    formater writes one line for a configuration, a series and a timestamp,
    the same for every iteration order of the field map: the keys are
    sorted, [Serie] before [Timestamp]; [format] returns an error iff the
    marshalling fails, which it does not on these fields, and then nothing
    is written. Two processes write the same line whenever they render the
    timestamp alike, and always when timestamps are disabled. *)
Theorem jsonFormater_format_deterministic {W : Type} `{!Writer W}
    {env : TimeEnv} `{!JsonEnv} (it1 it2 : MapIter) (f : jsonFormater) (w : W)
    (serie : string) (timestamp : Z) (data : gmap string any) :
  jsonFormater_format it1 f w serie timestamp
    = jsonFormater_format it2 f w serie timestamp ∧
  jsonFormater_format it1 f w serie timestamp
    = ((fmt_Fprint w (json_line f serie timestamp)).1, None) ∧
  jsonFormater_formatLine it1 f w data = jsonFormater_formatLine it2 f w data ∧
  ((∃ err, (jsonFormater_formatLine it1 f w data).2 = Some err) ↔
   (∃ err, json_Marshal it1 data = inr err)) ∧
  (∀ err, json_Marshal it1 data = inr err →
          jsonFormater_formatLine it1 f w data = (w, Some err)) ∧
  (∀ env' : TimeEnv,
     @formatTimestamp env' timestamp (json_timestampLayout f)
       = @formatTimestamp env timestamp (json_timestampLayout f) →
     @jsonFormater_format env' _ W _ it2 f w serie timestamp
       = @jsonFormater_format env _ W _ it1 f w serie timestamp) ∧
  (∀ env' : TimeEnv,
     json_withTimestamp f = false →
     @jsonFormater_format env' _ W _ it2 f w serie timestamp
       = @jsonFormater_format env _ W _ it1 f w serie timestamp).
Proof.
  assert (∀ d, jsonFormater_formatLine it1 f w d = jsonFormater_formatLine it2 f w d)
    as Hline.
  { intros d. unfold jsonFormater_formatLine.
    by rewrite (json_Marshal_deterministic it1 it2). }
  split; [apply Hline|]. split; [apply jsonFormater_format_line|].
  split; [apply Hline|]. split; [|split; [|split]].
  - unfold jsonFormater_formatLine.
    destruct (json_Marshal it1 data) as [b|err].
    + destruct (fmt_Fprint _ _). simpl. split; intros [? ?]; done.
    + simpl. split; eauto.
  - intros err Herr. unfold jsonFormater_formatLine. by rewrite Herr.
  - intros env' Hsame.
    rewrite (@jsonFormater_format_line W _ env' _ it2).
    rewrite (@jsonFormater_format_line W _ env _ it1).
    unfold json_line. by rewrite Hsame.
  - intros env' Hoff.
    rewrite (@jsonFormater_format_line W _ env' _ it2).
    rewrite (@jsonFormater_format_line W _ env _ it1).
    unfold json_line. by rewrite Hoff.
Qed.

Lemma jsonFormater_format_deterministic_witness :
  json_withTimestamp (mkJsonFormater false "RFC3339") = false ∧
  @jsonFormater_format offset_env plain_literal Buffer _ reverse_order
    (mkJsonFormater false "RFC3339") (mkBuffer "") "cpu.load" 0
  = @jsonFormater_format UTC_env plain_literal Buffer _ map_order
      (mkJsonFormater false "RFC3339") (mkBuffer "") "cpu.load" 0.
Proof.
  split; [reflexivity|].
  destruct (@jsonFormater_format_deterministic Buffer _ UTC_env plain_literal
              map_order reverse_order (mkJsonFormater false "RFC3339")
              (mkBuffer "") "cpu.load" 0 ∅) as (_ & _ & _ & _ & _ & _ & Hoff).
  exact (Hoff offset_env eq_refl).
Defined.

(** C9 as stated fails: the configuration, the series and the timestamp do
    not fix the line, which is rendered in the local zone of the process. At
    the epoch a process in UTC and one at +05:30 write different lines. *)
Lemma jsonFormater_format_zone_dependent :
  ¬ ∀ (env1 env2 : TimeEnv) (it1 it2 : MapIter) (f : jsonFormater)
      (w : Buffer) (serie : string) (timestamp : Z),
      @jsonFormater_format env1 plain_literal Buffer _ it1 f w serie timestamp
      = @jsonFormater_format env2 plain_literal Buffer _ it2 f w serie timestamp.
Proof.
  intros H.
  specialize (H UTC_env offset_env map_order map_order
                (mkJsonFormater true "RFC3339") (mkBuffer "") "cpu.load" 0).
  vm_compute in H. discriminate H.
Qed.

(** The two lines of the counterexample. *)
Example jsonFormater_zone_sample :
  @formatTimestamp UTC_env 0 "RFC3339" = "1970-01-01T00:00:00Z" ∧
  @formatTimestamp offset_env 0 "RFC3339" = "1970-01-01T05:30:00+05:30".
Proof. split; vm_compute; reflexivity. Qed.

(** The line for the series [cpu.load], without and with a timestamp. *)
Example jsonFormater_sample :
  contents (@jsonFormater_format UTC_env plain_literal Buffer _ reverse_order
              (mkJsonFormater true "RFC3339") (mkBuffer "") "cpu.load" 0).1
    = "{" +:+ double_quote +:+ "Serie" +:+ double_quote +:+ ":"
        +:+ double_quote +:+ "cpu.load" +:+ double_quote +:+ ","
        +:+ double_quote +:+ "Timestamp" +:+ double_quote +:+ ":"
        +:+ double_quote +:+ "1970-01-01T00:00:00Z" +:+ double_quote
        +:+ "}" +:+ newline.
Proof. vm_compute. reflexivity. Qed.

(** ** The timestamp renderer *)

(** [time.Unix(0, n)] is the floor of [n] in seconds, and the rest. *)
Lemma time_Unix_floor (Local : Location) n :
  time_Unix Local 0 n = mkTime (n `div` 10^9) (n `mod` 10^9) Local.
Proof.
  unfold time_Unix. pose proof (Z.quot_rem' n (10^9)) as Hq.
  pose proof (Z.div_mod n (10^9) ltac:(lia)) as Hd.
  pose proof (Z.mod_pos_bound n (10^9) ltac:(lia)) as Hm.
  set (q := Z.quot n (10^9)) in *. set (rm := Z.rem n (10^9)) in *.
  set (d := n `div` 10^9) in *. set (m := n `mod` 10^9) in *.
  assert (n < 0 → -10^9 < rm ≤ 0) as Hneg.
  { intros Hn. pose proof (Z.rem_bound_pos (- n) (10^9) ltac:(lia) ltac:(lia)) as Hr.
    rewrite Z.rem_opp_l in Hr by lia. subst rm. lia. }
  assert (0 ≤ n → 0 ≤ rm < 10^9) as Hpos.
  { intros Hn. pose proof (Z.rem_bound_pos n (10^9) ltac:(lia) ltac:(lia)).
    subst rm. lia. }
  clearbody q rm d m.
  repeat case_decide; f_equal; lia.
Qed.

Lemma strings_EqualFold_nonempty layout :
  strings_EqualFold layout "RFC3339" = true → layout ≠ "".
Proof. by destruct layout. Qed.

Lemma formatTimestamp_EqualFold `{TimeEnv} unixNano layout :
  strings_EqualFold layout "RFC3339" = true →
  formatTimestamp unixNano layout
    = format_RFC3339 (time_Unix time_Local 0 unixNano).
Proof.
  intros Hfold. unfold formatTimestamp, Time_Format.
  rewrite decide_False by by apply strings_EqualFold_nonempty.
  rewrite Hfold. by rewrite decide_True.
Qed.

(** C5, as amended. When the layout is [RFC3339] up to the case of its
    letters, the renderer formats the time with the layout [time.RFC3339],
    which has second precision: the timestamp renders as the start of its
    second does. In a process whose zone is UTC at the epoch, the text
    formater with timestamps writes [cpu.load: 1970-01-01T00:00:00Z] and a
    newline for the series [cpu.load] and the timestamp 0. *)
Theorem formatTimestamp_RFC3339 {W : Type} `{!Writer W} `{!TimeEnv}
    (unixNano : Z) (layout : string) (f : textFormater) (w : W) :
  strings_EqualFold layout "RFC3339" = true →
  formatTimestamp unixNano layout
    = format_RFC3339 (time_Unix time_Local 0 unixNano) ∧
  formatTimestamp unixNano layout
    = formatTimestamp (unixNano `div` 10^9 * 10^9) layout ∧
  (time_Local 0 = 0 → text_withTimestamp f = true →
   text_timestampLayout f = layout →
   textFormater_format f w "cpu.load" 0
     = ((Write w ("cpu.load: 1970-01-01T00:00:00Z" +:+ newline)).1, None)).
Proof.
  intros Hfold. split; [by apply formatTimestamp_EqualFold|]. split.
  - rewrite !formatTimestamp_EqualFold by done. rewrite !time_Unix_floor.
    unfold format_RFC3339, format_date_clock. simpl.
    by rewrite Z.div_mul by lia.
  - intros Hzone Hwith Hlayout. unfold textFormater_format.
    rewrite Hwith, Hlayout, formatTimestamp_EqualFold by done.
    unfold fmt_Fprint, format_RFC3339, format_date_clock. simpl.
    rewrite Hzone. by destruct (Write w _).
Qed.

Lemma formatTimestamp_RFC3339_witness :
  strings_EqualFold "rfc3339" "RFC3339" = true ∧
  @formatTimestamp UTC_env 1577836800123456789 "rfc3339"
    = "2020-01-01T00:00:00Z".
Proof.
  assert (strings_EqualFold "rfc3339" "RFC3339" = true) as H by reflexivity.
  split; [exact H|].
  rewrite (proj1 (@formatTimestamp_RFC3339 Buffer _ UTC_env 1577836800123456789
                    "rfc3339" (mkTextFormater true "rfc3339") (mkBuffer "") H)).
  vm_compute. reflexivity.
Defined.

(** C5 as stated fails: one nanosecond after the epoch renders without a
    fraction, not as RFC 3339 at nanosecond precision would. *)
Lemma formatTimestamp_RFC3339_not_nanosecond :
  ¬ ∀ (unixNano : Z) (layout : string),
      strings_EqualFold layout "RFC3339" = true →
      @formatTimestamp UTC_env unixNano layout
        = format_RFC3339_nanosecond (time_Unix time_UTC 0 unixNano).
Proof.
  intros H. specialize (H 1 "RFC3339" eq_refl). vm_compute in H.
  discriminate H.
Qed.

Example format_RFC3339_nanosecond_sample :
  format_RFC3339_nanosecond (time_Unix time_UTC 0 1)
    = "1970-01-01T00:00:00.000000001Z" ∧
  @formatTimestamp UTC_env 1 "RFC3339" = "1970-01-01T00:00:00Z".
Proof. split; vm_compute; reflexivity. Qed.

(** ** The rendering without layout *)

Lemma land_0xFF x : Z.land x 0xFF = x `mod` 256.
Proof. change 0xFF with (Z.ones 8). by rewrite Z.land_ones. Qed.

Lemma land_0x3F x : Z.land x 0x3F = x `mod` 64.
Proof. change 0x3F with (Z.ones 6). by rewrite Z.land_ones. Qed.

Lemma land_0x1F x : Z.land x 0x1F = x `mod` 32.
Proof. change 0x1F with (Z.ones 5). by rewrite Z.land_ones. Qed.

Lemma land_0x0F x : Z.land x 0x0F = x `mod` 16.
Proof. change 0x0F with (Z.ones 4). by rewrite Z.land_ones. Qed.

Lemma land_0x07 x : Z.land x 0x07 = x `mod` 8.
Proof. change 0x07 with (Z.ones 3). by rewrite Z.land_ones. Qed.

(** Bits set in disjoint positions add up. *)
Lemma lor_shiftl_add hi lo k :
  0 ≤ k → 0 ≤ lo < 2^k → Z.lor (Z.shiftl hi k) lo = hi * 2^k + lo.
Proof.
  intros Hk Hlo. rewrite <- Z.shiftl_mul_pow2 by done.
  rewrite <- Z.add_lor_land.
  replace (Z.land (Z.shiftl hi k) lo) with 0; [lia|].
  symmetry. apply Z.bits_inj'. intros n Hn.
  rewrite Z.land_spec, Z.bits_0.
  destruct (decide (n < k)).
  - by rewrite Z.shiftl_spec_low.
  - rewrite <- (Z.mod_small lo (2^k)) by done.
    rewrite Z.mod_pow2_bits_high by lia. apply andb_false_r.
Qed.

Lemma lor_lead hi lo k :
  0 ≤ k → 0 ≤ lo < 2^k → Z.lor (hi * 2^k) lo = hi * 2^k + lo.
Proof.
  intros Hk Hlo. rewrite <- (lor_shiftl_add hi lo k) by done.
  by rewrite Z.shiftl_mul_pow2.
Qed.

Lemma code_of_char_of b : 0 ≤ b < 256 → code_of (char_of b) = b.
Proof.
  intros Hb. unfold code_of, char_of.
  rewrite N_ascii_embedding by lia. lia.
Qed.

Lemma codes_chars bs : Forall (λ b, 0 ≤ b < 256) bs → codes (chars bs) = bs.
Proof.
  induction 1 as [|b bs Hb _ IH]; [done|]. simpl.
  by rewrite code_of_char_of, IH.
Qed.

Lemma length_chars bs : String.length (chars bs) = length bs.
Proof. induction bs as [|b bs IH]; [done|]. simpl. by rewrite IH. Qed.

Lemma runes_chars bs r :
  bs ≠ [] → Forall (λ b, 0 ≤ b < 256) bs → DecodeRune bs = (r, []) →
  runes (chars bs) = [r].
Proof.
  intros Hne Hbs Hdec. unfold runes. rewrite length_chars, codes_chars by done.
  destruct bs as [|b bs]; [done|]. simpl length. cbn [runes_of].
  rewrite Hdec. by destruct (length bs).
Qed.

Ltac lia_div :=
  change (2 ^ 6) with 64; change (2 ^ 12) with 4096;
  change (2 ^ 18) with 262144; Z.to_euclidean_division_equations; lia.
Ltac bytes_eq := repeat (apply (f_equal2 cons); [lia_div|]); reflexivity.

(** The bytes that [encoderune] writes, by the digits of the rune in base
    64. *)
Lemma encoderune_1 r : 0 ≤ r ≤ 0x7F → encoderune r = [ r ].
Proof.
  intros Hr. unfold encoderune, uint32, uint8.
  rewrite (Z.mod_small r (2^32)) by lia. rewrite decide_True by lia.
  rewrite land_0xFF. bytes_eq.
Qed.

Lemma encoderune_2 a d :
  2 ≤ a < 32 → 0 ≤ d < 64 → encoderune (a * 64 + d) = [ 192 + a; 128 + d ].
Proof.
  intros Ha Hd. unfold encoderune, uint32, uint8.
  rewrite (Z.mod_small _ (2^32)) by lia.
  rewrite decide_False, decide_True by lia.
  rewrite !land_0xFF, !land_0x3F, !Z.shiftr_div_pow2 by lia.
  change 0xC0 with (3 * 2^6). change 0x80 with (2 * 2^6).
  rewrite !lor_lead by lia_div. bytes_eq.
Qed.

Lemma encode3_digits a c d :
  0 ≤ a < 16 → 0 ≤ c < 64 → 0 ≤ d < 64 →
  encode3 (a * 4096 + c * 64 + d) = [ 224 + a; 128 + c; 128 + d ].
Proof.
  intros Ha Hc Hd. unfold encode3, uint8.
  rewrite !land_0xFF, !land_0x3F, !Z.shiftr_div_pow2 by lia.
  change 0xE0 with (14 * 2^4). change 0x80 with (2 * 2^6).
  rewrite !lor_lead by lia_div. bytes_eq.
Qed.

Lemma encoderune_3 a c d :
  0 ≤ a < 16 → 0 ≤ c < 64 → 0 ≤ d < 64 →
  0x800 ≤ a * 4096 + c * 64 + d →
  ¬ (surrogateMin ≤ a * 4096 + c * 64 + d ≤ surrogateMax) →
  encoderune (a * 4096 + c * 64 + d) = [ 224 + a; 128 + c; 128 + d ].
Proof.
  unfold surrogateMin, surrogateMax. intros Ha Hc Hd Hlow Hs.
  rewrite <- encode3_digits by done.
  unfold encoderune, uint32, maxRune, surrogateMin, surrogateMax.
  rewrite (Z.mod_small _ (2^32)) by lia.
  rewrite !decide_False by lia. by rewrite decide_True by lia.
Qed.

Lemma encoderune_4 a b c d :
  0 ≤ a < 8 → 0 ≤ b < 64 → 0 ≤ c < 64 → 0 ≤ d < 64 →
  0x10000 ≤ a * 262144 + b * 4096 + c * 64 + d ≤ maxRune →
  encoderune (a * 262144 + b * 4096 + c * 64 + d)
    = [ 240 + a; 128 + b; 128 + c; 128 + d ].
Proof.
  unfold maxRune. intros Ha Hb Hc Hd Hr.
  unfold encoderune, uint32, uint8, maxRune, surrogateMin, surrogateMax.
  rewrite (Z.mod_small _ (2^32)) by lia.
  rewrite !decide_False by lia.
  rewrite !land_0xFF, !land_0x3F, !Z.shiftr_div_pow2 by lia.
  change 0xF0 with (30 * 2^3). change 0x80 with (2 * 2^6).
  rewrite !lor_lead by lia_div. bytes_eq.
Qed.

(** A scalar value is one of the four shapes. *)
Lemma valid_scalar_digits r :
  valid_scalar r →
  0 ≤ r ≤ 0x7F ∨
  (∃ a d, r = a * 64 + d ∧ 2 ≤ a < 32 ∧ 0 ≤ d < 64) ∨
  (∃ a c d, r = a * 4096 + c * 64 + d ∧ 0 ≤ a < 16 ∧ 0 ≤ c < 64 ∧ 0 ≤ d < 64 ∧
            0x800 ≤ r ∧ ¬ (surrogateMin ≤ r ≤ surrogateMax)) ∨
  (∃ a b c d, r = a * 262144 + b * 4096 + c * 64 + d ∧
              0 ≤ a < 8 ∧ 0 ≤ b < 64 ∧ 0 ≤ c < 64 ∧ 0 ≤ d < 64 ∧
              0x10000 ≤ r ≤ maxRune).
Proof.
  unfold valid_scalar, maxRune, surrogateMin, surrogateMax. intros [Hr Hs].
  destruct (decide (r ≤ 0x7F)); [left; lia|right].
  destruct (decide (r ≤ 0x7FF)); [left|right].
  { exists (r `div` 64), (r `mod` 64). lia_div. }
  destruct (decide (r ≤ 0xFFFF)); [left|right].
  { exists (r `div` 4096), ((r `div` 64) `mod` 64), (r `mod` 64).
    split; [lia_div|]. split; [lia_div|]. split; [lia_div|].
    split; [lia_div|]. split; lia. }
  exists (r `div` 262144), ((r `div` 4096) `mod` 64),
    ((r `div` 64) `mod` 64), (r `mod` 64).
  split; [lia_div|]. split; [lia_div|]. split; [lia_div|].
  split; [lia_div|]. split; [lia_div|]. unfold maxRune. lia.
Qed.

Lemma payload_cont x : 0 ≤ x < 64 → (128 + x) `mod` 64 = x.
Proof. intros. lia_div. Qed.

Lemma DecodeRune_2 a d :
  2 ≤ a < 32 → 0 ≤ d < 64 → DecodeRune [ 192 + a; 128 + d ] = (a * 64 + d, []).
Proof.
  intros Ha Hd. unfold DecodeRune, is_cont, payload, in_range.
  rewrite decide_False by lia. rewrite !bool_decide_true by lia.
  rewrite land_0x1F, land_0x3F, lor_shiftl_add by lia_div.
  f_equal. lia_div.
Qed.

Lemma DecodeRune_3 a c d :
  0 ≤ a < 16 → 0 ≤ c < 64 → 0 ≤ d < 64 →
  0x800 ≤ a * 4096 + c * 64 + d →
  ¬ (surrogateMin ≤ a * 4096 + c * 64 + d ≤ surrogateMax) →
  DecodeRune [ 224 + a; 128 + c; 128 + d ] = (a * 4096 + c * 64 + d, []).
Proof.
  unfold surrogateMin, surrogateMax. intros Ha Hc Hd Hlow Hs.
  unfold DecodeRune, is_cont, payload, in_range.
  rewrite decide_False by lia. rewrite bool_decide_false by lia.
  rewrite (bool_decide_true (224 ≤ _ ≤ 239)) by lia.
  rewrite land_0x0F, !land_0x3F, !payload_cont by lia.
  replace ((224 + a) `mod` 16) with a by lia_div.
  rewrite (lor_shiftl_add _ _ 6) by lia.
  rewrite (lor_shiftl_add _ _ 12) by lia.
  repeat case_decide; rewrite !bool_decide_true by lia; simpl;
    f_equal; lia.
Qed.

Lemma DecodeRune_4 a b c d :
  0 ≤ a < 8 → 0 ≤ b < 64 → 0 ≤ c < 64 → 0 ≤ d < 64 →
  0x10000 ≤ a * 262144 + b * 4096 + c * 64 + d ≤ maxRune →
  DecodeRune [ 240 + a; 128 + b; 128 + c; 128 + d ]
    = (a * 262144 + b * 4096 + c * 64 + d, []).
Proof.
  unfold maxRune. intros Ha Hb Hc Hd Hr.
  unfold DecodeRune, is_cont, payload, in_range.
  rewrite decide_False by lia. rewrite !bool_decide_false by lia.
  rewrite (bool_decide_true (240 ≤ _ ≤ 244)) by lia.
  rewrite land_0x07, !land_0x3F, !payload_cont by lia.
  replace ((240 + a) `mod` 8) with a by lia_div.
  rewrite (lor_shiftl_add _ _ 6) by lia.
  rewrite (lor_shiftl_add _ _ 12) by lia.
  rewrite (lor_shiftl_add _ _ 18) by lia.
  repeat case_decide; rewrite !bool_decide_true by lia; simpl;
    f_equal; lia.
Qed.

(** Decoding the encoding of a scalar value gives it back, and nothing is
    left. *)
Lemma runes_encoderune r : valid_scalar r → runes (chars (encoderune r)) = [ r ].
Proof.
  intros [Hr | [(a & d & -> & Ha & Hd)
             | [(a & c & d & -> & Ha & Hc & Hd & Hlow & Hs)
               | (a & b & c & d & -> & Ha & Hb & Hc & Hd & Hr)]]]%valid_scalar_digits.
  - rewrite encoderune_1 by done. apply runes_chars; [done| |].
    + repeat constructor; lia.
    + unfold DecodeRune. by rewrite decide_True by lia.
  - rewrite encoderune_2 by done. apply runes_chars; [done| |].
    + repeat constructor; lia.
    + by apply DecodeRune_2.
  - rewrite encoderune_3 by done. apply runes_chars; [done| |].
    + repeat constructor; lia.
    + by apply DecodeRune_3.
  - rewrite encoderune_4 by done. apply runes_chars; [done| |].
    + repeat constructor; lia.
    + by apply DecodeRune_4.
Qed.

Lemma intstring_scalar v : valid_scalar v → intstring v = chars (encoderune v).
Proof.
  unfold valid_scalar, maxRune. intros [Hv _]. unfold intstring, int32.
  rewrite decide_True; [done|]. rewrite Z.mod_small; lia.
Qed.

Lemma intstring_not_scalar v :
  ¬ valid_scalar v → intstring v = chars [ 0xEF; 0xBF; 0xBD ].
Proof.
  unfold valid_scalar, maxRune, surrogateMin, surrogateMax. intros Hv.
  unfold intstring. case_decide as Hrune; [|reflexivity].
  assert (- 2^31 ≤ v < 2^31) as Hrange.
  { unfold int32 in Hrune. lia_div. }
  unfold encoderune, uint32, maxRune, surrogateMin, surrogateMax.
  destruct (decide (v < 0)) as [Hneg|Hpos].
  - replace (v `mod` 2^32) with (v + 2^32) by lia_div.
    rewrite !decide_False by lia. by rewrite decide_True by lia.
  - rewrite Z.mod_small by lia.
    rewrite !decide_False by lia. by rewrite decide_True by lia.
Qed.

(** C6, as amended. Without layout the renderer returns one character in
    UTF-8: the character whose code point is the timestamp when the
    timestamp is a Unicode scalar value, and U+FFFD for every other
    timestamp. *)
Theorem formatTimestamp_empty_layout `{!TimeEnv} (unixNano : Z) :
  (valid_scalar unixNano → runes (formatTimestamp unixNano "") = [ unixNano ]) ∧
  (¬ valid_scalar unixNano →
     formatTimestamp unixNano "" = chars [ 0xEF; 0xBF; 0xBD ] ∧
     runes (formatTimestamp unixNano "") = [ runeError ]).
Proof.
  unfold formatTimestamp. rewrite decide_True by done. split.
  - intros Hv. rewrite intstring_scalar by done. by apply runes_encoderune.
  - intros Hv. by rewrite intstring_not_scalar.
Qed.

Lemma formatTimestamp_empty_layout_witness :
  valid_scalar 0x20AC ∧ ¬ valid_scalar 1577836800000000000 ∧
  runes (@formatTimestamp UTC_env 0x20AC "") = [ 0x20AC ] ∧
  runes (@formatTimestamp UTC_env 1577836800000000000 "") = [ runeError ].
Proof.
  assert (valid_scalar 0x20AC) as Hv.
  { unfold valid_scalar, maxRune, surrogateMin, surrogateMax. lia. }
  assert (¬ valid_scalar 1577836800000000000) as Hn.
  { unfold valid_scalar, maxRune, surrogateMin, surrogateMax. lia. }
  split; [exact Hv|]. split; [exact Hn|]. split.
  - exact (proj1 (@formatTimestamp_empty_layout UTC_env 0x20AC) Hv).
  - exact (proj2 (proj2 (@formatTimestamp_empty_layout UTC_env
                           1577836800000000000) Hn)).
Defined.

(** C6 as stated fails: the first instant of 2020 renders as U+FFFD, whose
    code point is not the timestamp. *)
Lemma formatTimestamp_empty_layout_replacement :
  ¬ ∀ unixNano : Z, runes (@formatTimestamp UTC_env unixNano "") = [ unixNano ].
Proof.
  intros H. specialize (H 1577836800000000000). vm_compute in H.
  discriminate H.
Qed.

(** ** The text report on a buffer *)

Lemma foldl_emit_text `{!TimeEnv} `{!JsonEnv} (it : MapIter)
    (r : OldSeriesRule Buffer) layout keys (w : Buffer) :
  rule_formater r = TextFormater (mkTextFormater false layout) →
  contents (foldl (emit it r) w keys) = contents w +:+ text_lines keys.
Proof.
  intros Hf. revert w. induction keys as [|key keys IH]; intros w; simpl.
  - by rewrite string_app_nil_r.
  - rewrite IH. unfold emit. rewrite Hf. simpl.
    by rewrite !string_app_assoc.
Qed.

(** X12. With the text formater and no timestamps, [End] appends to the
    buffer the stale series, one per line, in ascending order, and leaves
    what the buffer held before. *)
Lemma End_text_lines `{!TimeEnv} `{!JsonEnv} (it : MapIter)
    (r : OldSeriesRule Buffer) layout :
  rule_formater r = TextFormater (mkTextFormater false layout) →
  contents (out (End it r)) =
    contents (out r) +:+ text_lines (stale_keys (series r) (unixNano r)).
Proof. intros Hf. rewrite End_eq. simpl. by apply (foldl_emit_text _ _ layout). Qed.

(** * Further properties of the rule *)

(** ** Accumulation *)

Lemma rule_eq {W} (r r' : OldSeriesRule W) :
  same_setup r r' → series r' = series r → r' = r.
Proof.
  destruct r, r'. unfold same_setup. simpl. intros (-> & -> & -> & ->) ->. done.
Qed.

Lemma ApplyAll_app {W} decode (r : OldSeriesRule W) calls1 calls2 :
  ApplyAll decode r (calls1 ++ calls2) =
    (r' ←! ApplyAll decode r calls1; ApplyAll decode r' calls2).
Proof.
  revert r. induction calls1 as [|[key values] calls1 IH]; intros r; [done|].
  simpl. destruct (Apply decode r key values) as [[r1 rw]|msg]; [|done].
  simpl. apply IH.
Qed.

Section Accumulation_more.
Context {W : Type}.
Variable decode : bytes → bytes * bytes.
Implicit Types (r : OldSeriesRule W).

(** X1. [Apply] uses the key only through the series it decodes to: two
    composite keys of the same series, whatever their fields, have the same
    effect and the same result. *)
Theorem Apply_field_coalescing r key1 key2 values :
  (decode key1).1 = (decode key2).1 →
  Apply decode r key1 values = Apply decode r key2 values.
Proof.
  unfold Apply. destruct (decode key1) as [s1 f1], (decode key2) as [s2 f2].
  simpl. by intros ->.
Qed.

(** X2. [Apply] reads the last sample of the block and no other: the
    samples before it, in whatever order, do not change the outcome. *)
Theorem Apply_reads_last_only r key values v :
  Apply decode r key (values ++ [v]) = Apply decode r key [v].
Proof.
  unfold Apply. destruct (decode key) as [s f].
  destruct (index_last (values ++ [v])) as (v' & Hlast & ->);
    [by destruct values|].
  rewrite last_snoc in Hlast. by injection Hlast as <-.
Qed.

Lemma maximum_ordered ts : Sorted Z.le ts → maximum ts = last ts.
Proof.
  intros Hs%(Sorted_StronglySorted Z.le).
  induction Hs as [|t ts Hs IH Hall]; [done|].
  rewrite maximum_cons, IH. destruct ts as [|t' ts]; [done|].
  rewrite last_cons_cons. destruct (last (t' :: ts)) as [m|] eqn:Hlast; [|done].
  simpl. f_equal. rewrite Forall_forall in Hall.
  assert (t ≤ m); [|lia]. apply Hall. rewrite last_Some in Hlast.
  destruct Hlast as [l' ->]. apply elem_of_app. right. by left.
Qed.

Lemma maximum_samples s calls :
  Forall (λ call, ordered_block call.2) calls →
  maximum (samples decode s calls) = maximum (candidates decode s calls).
Proof.
  induction 1 as [|[key values] calls Hvalues _ IH]; [done|].
  change (samples decode s ((key, values) :: calls)) with
    ((if decide ((decode key).1 = s) then UnixNano <$> values else [])
       ++ samples decode s calls).
  change (candidates decode s ((key, values) :: calls)) with
    (from_option (λ t, t :: candidates decode s calls)
       (candidates decode s calls)
       (if decide ((decode key).1 = s) then UnixNano <$> last values else None)).
  rewrite maximum_app, IH. case_decide;
    [|change (maximum []) with (@None Z); by rewrite omax_comm, omax_None_r].
  rewrite (maximum_ordered (UnixNano <$> values)) by exact Hvalues.
  rewrite fmap_last.
  destruct (last values) as [v|]; [symmetry; apply maximum_cons|].
  change (omax None (maximum (candidates decode s calls))
          = maximum (candidates decode s calls)).
  by rewrite omax_comm, omax_None_r.
Qed.

(** X3. When every block is non-empty and ordered by timestamp, the value
    stored for a series on a fresh rule is the greatest timestamp among all
    the samples of all the blocks of that series. *)
Theorem Apply_stores_latest_sample r calls s :
  series r = ∅ →
  Forall (λ call, call.2 ≠ []) calls →
  Forall (λ call, ordered_block call.2) calls →
  ∃ r', ApplyAll decode r calls = Ok r' ∧
        series r' !! s = maximum (samples decode s calls).
Proof.
  intros Hempty Hne Hord.
  destruct (ApplyAll_nonempty decode calls r Hne) as (r' & Hr' & _ & Hlookup & _).
  exists r'. split; [done|].
  rewrite Hlookup, Hempty, lookup_empty, maximum_samples by done.
  by destruct (maximum _).
Qed.

(** X4. One [Apply] on a non-empty block changes nothing of the rule but the
    entry of the decoded series: the threshold, the destination, the
    formater and the logger stay, every other series keeps its value, and
    the map grows by one entry exactly when the series is new. *)
Theorem Apply_frame r key values :
  values ≠ [] →
  ∃ r', Apply decode r key values = Ok (r', (None, None, None)) ∧
    same_setup r r' ∧
    (∀ s, s ≠ (decode key).1 → series r' !! s = series r !! s) ∧
    is_Some (series r' !! (decode key).1) ∧
    size (series r') =
      if decide (is_Some (series r !! (decode key).1))
      then size (series r) else S (size (series r)).
Proof.
  intros Hvalues.
  destruct (last values) as [v|] eqn:Hlast; [|by apply last_None in Hlast].
  destruct (Apply_nonempty decode r key values v Hlast) as (r' & Hr' & Hs & Hsetup).
  exists r'. split; [done|]. split; [done|]. rewrite Hs. split; [|split].
  - intros s Hne. rewrite lookup_bump. by rewrite decide_False.
  - rewrite lookup_bump, decide_True by done.
    destruct (series r !! _); simpl; eauto.
  - unfold bump. destruct (series r !! (decode key).1) as [ts|] eqn:Hold.
    + destruct (decide (is_Some (Some ts))) as [_|Hn]; [|by destruct Hn].
      case_decide; [|done]. apply map_size_insert_Some. eauto.
    + destruct (decide (is_Some (@None Z))) as [[? ?]|_]; [done|].
      by apply map_size_insert_None.
Qed.

(** X5. Delivering again a block that was already delivered changes nothing:
    the state after the repeated call is the state before it. *)
Theorem Apply_redelivery r calls key values :
  (key, values) ∈ calls →
  Forall (λ call, call.2 ≠ []) calls →
  ∃ r', ApplyAll decode r calls = Ok r' ∧
        ApplyAll decode r (calls ++ [(key, values)]) = Ok r'.
Proof.
  intros Hin Hne.
  destruct (ApplyAll_nonempty decode calls r Hne) as (r' & Hr' & _ & Hlookup & _).
  exists r'. split; [done|]. rewrite ApplyAll_app, Hr'. simpl.
  rewrite Forall_forall in Hne. specialize (Hne _ Hin). simpl in Hne.
  destruct (last values) as [v|] eqn:Hlast; [|by apply last_None in Hlast].
  destruct (Apply_nonempty decode r' key values v Hlast) as (r2 & -> & Hs & Hsetup).
  simpl. f_equal. apply rule_eq; [done|]. rewrite Hs. apply map_eq. intros s.
  rewrite lookup_bump. case_decide as Hkey; [|done]. subst s.
  rewrite Hlookup.
  assert (UnixNano v ∈ candidates decode (decode key).1 calls) as Hcand.
  { unfold candidates. apply list_elem_of_omap. exists (key, values).
    split; [done|]. unfold candidate. simpl. rewrite decide_True by done.
    by rewrite Hlast. }
  destruct (maximum (candidates decode (decode key).1 calls)) as [m|] eqn:Hm.
  - apply maximum_Some in Hm as [_ Hall]. rewrite Forall_forall in Hall.
    specialize (Hall _ Hcand).
    destruct (series r !! (decode key).1); simpl; f_equal; lia.
  - apply maximum_None in Hm. rewrite Hm in Hcand. by apply elem_of_nil in Hcand.
Qed.
End Accumulation_more.

(** Witnesses on the sample blocks. *)
Lemma Apply_field_coalescing_witness :
  (tsm1_SeriesAndFieldFromCompositeKey "cpu#!~#load").1
    = (tsm1_SeriesAndFieldFromCompositeKey "cpu#!~#idle").1 ∧
  Apply tsm1_SeriesAndFieldFromCompositeKey sample_rule "cpu#!~#load" [mkValue 7]
    = Apply tsm1_SeriesAndFieldFromCompositeKey sample_rule "cpu#!~#idle" [mkValue 7].
Proof.
  assert ((tsm1_SeriesAndFieldFromCompositeKey "cpu#!~#load").1
          = (tsm1_SeriesAndFieldFromCompositeKey "cpu#!~#idle").1) as H
    by reflexivity.
  split; [exact H|].
  exact (Apply_field_coalescing tsm1_SeriesAndFieldFromCompositeKey sample_rule
           "cpu#!~#load" "cpu#!~#idle" [mkValue 7] H).
Defined.

Lemma sample_calls_nonempty :
  Forall (λ call : bytes * list Value, call.2 ≠ []) sample_calls.
Proof. repeat constructor; discriminate. Defined.

Lemma sample_calls_ordered :
  Forall (λ call : bytes * list Value, ordered_block call.2) sample_calls.
Proof. repeat constructor; simpl; lia. Defined.

Lemma Apply_stores_latest_sample_witness :
  series sample_rule = ∅ ∧
  Forall (λ call : bytes * list Value, call.2 ≠ []) sample_calls ∧
  Forall (λ call : bytes * list Value, ordered_block call.2) sample_calls ∧
  ∃ r', ApplyAll tsm1_SeriesAndFieldFromCompositeKey sample_rule sample_calls
          = Ok r' ∧ series r' !! "cpu" = Some 100.
Proof.
  split; [reflexivity|]. split; [exact sample_calls_nonempty|].
  split; [exact sample_calls_ordered|].
  destruct (Apply_stores_latest_sample tsm1_SeriesAndFieldFromCompositeKey
              sample_rule sample_calls "cpu" eq_refl sample_calls_nonempty
              sample_calls_ordered) as (r' & Hr' & Hlookup).
  exists r'. split; [exact Hr'|]. rewrite Hlookup. reflexivity.
Defined.

Lemma Apply_frame_witness :
  [mkValue 101] ≠ [] ∧
  ∃ r', Apply tsm1_SeriesAndFieldFromCompositeKey sample_result "mem#!~#used"
          [mkValue 101] = Ok (r', (None, None, None)) ∧
        size (series r') = 2%nat.
Proof.
  assert ([mkValue 101] ≠ []) as H by discriminate.
  split; [exact H|].
  destruct (Apply_frame tsm1_SeriesAndFieldFromCompositeKey sample_result
              "mem#!~#used" [mkValue 101] H) as (r' & Hr' & _ & _ & _ & Hsize).
  exists r'. split; [exact Hr'|]. rewrite Hsize. vm_compute. reflexivity.
Defined.

Lemma Apply_redelivery_witness :
  ("cpu#!~#load", [mkValue 50; mkValue 90]) ∈ sample_calls ∧
  Forall (λ call : bytes * list Value, call.2 ≠ []) sample_calls ∧
  ∃ r', ApplyAll tsm1_SeriesAndFieldFromCompositeKey sample_rule sample_calls
          = Ok r' ∧
        ApplyAll tsm1_SeriesAndFieldFromCompositeKey sample_rule
          (sample_calls ++ [("cpu#!~#load", [mkValue 50; mkValue 90])]) = Ok r'.
Proof.
  assert (("cpu#!~#load", [mkValue 50; mkValue 90]) ∈ sample_calls) as H
    by (unfold sample_calls; left).
  split; [exact H|]. split; [exact sample_calls_nonempty|].
  exact (Apply_redelivery tsm1_SeriesAndFieldFromCompositeKey sample_rule
           sample_calls _ _ H sample_calls_nonempty).
Defined.

(** ** The report *)

Lemma filter_all {A} (P : A → Prop) `{!∀ x, Decision (P x)} (l : list A) :
  Forall P l → filter P l = l.
Proof.
  induction 1 as [|x l Hx _ IH]; [done|].
  by rewrite filter_cons_True, IH.
Qed.

Lemma filter_none {A} (P : A → Prop) `{!∀ x, Decision (P x)} (l : list A) :
  Forall (λ x, ¬ P x) l → filter P l = [].
Proof.
  induction 1 as [|x l Hx _ IH]; [done|].
  by rewrite filter_cons_False.
Qed.

Section Report_more.
Context {W : Type} `{!Writer W} `{!TimeEnv} `{!JsonEnv}.
Implicit Types (r : OldSeriesRule W) (it : MapIter).

Lemma format_iteration it1 it2 f (w : W) key ts :
  format it1 f w key ts = format it2 f w key ts.
Proof.
  destruct f as [f|f]; [done|]. unfold format, jsonFormater_format,
    jsonFormater_formatLine. by rewrite (json_Marshal_deterministic it1 it2).
Qed.

(** X6. [format] never returns an error, for the text formater and for the
    JSON formater alike: [End], which drops the value of [format], drops
    no error. *)
Theorem format_never_fails it f (w : W) key ts :
  (format it f w key ts).2 = None.
Proof.
  destruct f as [f|f]; simpl.
  - unfold textFormater_format.
    destruct (text_withTimestamp f); by destruct (fmt_Fprint _ _).
  - unfold jsonFormater_format, jsonFormater_formatLine.
    destruct (json_withTimestamp f).
    + rewrite json_Marshal_Serie_Timestamp. by destruct (fmt_Fprint _ _).
    + rewrite json_Marshal_Serie. by destruct (fmt_Fprint _ _).
Qed.

Lemma foldl_emit_iteration it1 it2 r keys (w : W) :
  foldl (emit it1 r) w keys = foldl (emit it2 r) w keys.
Proof.
  revert w. induction keys as [|key keys IH]; intros w; [done|]. simpl.
  rewrite IH. unfold emit. by rewrite (format_iteration it1 it2).
Qed.

(** X7. The whole effect of [End], on the destination and on the logger, is
    the same for every order in which Go iterates over the accumulation map
    and over the field map of the JSON formater. *)
Theorem End_iteration_independent it1 it2 r : End it1 r = End it2 r.
Proof. rewrite !End_eq. simpl. by rewrite (foldl_emit_iteration it1 it2). Qed.

(** X8. [End] leaves the accumulation map, the threshold and the formater
    as they are, so that a second [End] writes the same report once more
    after the first and logs the same summary a second time. *)
Theorem End_twice it r :
  series (End it r) = series r ∧
  unixNano (End it r) = unixNano r ∧
  rule_formater (End it r) = rule_formater r ∧
  out (End it (End it r)) =
    foldl (emit it r) (out (End it r)) (stale_keys (series r) (unixNano r)) ∧
  ∃ msg, entries (logger (End it (End it r))) = entries (logger r) ++ [msg; msg].
Proof.
  rewrite (End_eq it (End it r)). rewrite !End_eq. simpl.
  repeat split; try done. eexists. by rewrite <- app_assoc.
Qed.

(** X9. On a rule that has just been constructed, [End] writes nothing to
    the destination and logs [Detected 0/0 series as old]. *)
Theorem End_fresh it (logging_GetLogger : string → Logger) t (w : W) f :
  out (End it (newOldSeriesRule logging_GetLogger t w f)) = w ∧
  entries (logger (End it (newOldSeriesRule logging_GetLogger t w f))) =
    entries (logging_GetLogger "OldSeriesRule") ++ [ "Detected 0/0 series as old" ].
Proof.
  rewrite End_eq. simpl. unfold stale_keys. by rewrite map_to_list_empty.
Qed.

(** X10. The two numbers of the summary: the count is at most the total,
    which is the number of series in the map; they are equal iff every
    series is at or before the threshold, and the count is zero iff every
    series is after it. *)
Theorem End_counts it r :
  ∃ count total : nat,
    entries (logger (End it r)) =
      entries (logger r) ++ [ summary (Z.of_nat count) (Z.of_nat total) ] ∧
    total = size (series r) ∧
    (count ≤ total)%nat ∧
    (count = total ↔
       ∀ key lastSeen, series r !! key = Some lastSeen → lastSeen ≤ unixNano r) ∧
    (count = 0%nat ↔
       ∀ key lastSeen, series r !! key = Some lastSeen → unixNano r < lastSeen).
Proof.
  exists (length (stale_keys (series r) (unixNano r))), (size (series r)).
  rewrite End_eq. simpl. split; [done|]. split; [done|].
  set (keys := sort_Strings (map_to_list (series r)).*1).
  assert (length keys = size (series r)) as Hlen.
  { pose proof (len_sorted_keys (series r)) as Hk. unfold len in Hk.
    fold keys in Hk. lia. }
  rewrite <- Hlen. unfold stale_keys. fold keys.
  split; [apply length_filter|]. split.
  - split.
    + intros Heq key lastSeen Hkey.
      destruct (decide (lastSeen ≤ unixNano r)) as [|Hgt]; [done|].
      assert (key ∈ keys) as Hin by (apply elem_of_sorted_keys; eauto).
      pose proof (length_filter_lt
                    (λ key, default 0 (series r !! key) ≤ unixNano r)
                    keys key Hin) as Hlt.
      simpl in Hlt. rewrite Hkey in Hlt. specialize (Hlt Hgt). lia.
    + intros Hall. f_equal. apply filter_all, Forall_forall.
      intros key [lastSeen Hkey]%elem_of_sorted_keys. rewrite Hkey. simpl. eauto.
  - split.
    + intros Hzero%nil_length_inv key lastSeen Hkey.
      destruct (decide (lastSeen ≤ unixNano r)) as [Hle|]; [|lia].
      assert (key ∈ keys) as Hin by (apply elem_of_sorted_keys; eauto).
      destruct (filter_nil_not_elem_of _ keys key Hzero); [|done].
      by rewrite Hkey.
    + intros Hall. rewrite filter_none; [done|]. apply Forall_forall.
      intros key [lastSeen Hkey]%elem_of_sorted_keys. rewrite Hkey. simpl.
      specialize (Hall _ _ Hkey). lia.
Qed.

(** X11. Raising the threshold never removes a series from the report: the
    series reported for a threshold are reported, in the same order, for
    every later threshold. *)
Theorem stale_keys_monotone (m : gmap string Z) threshold threshold' :
  threshold ≤ threshold' →
  stale_keys m threshold `sublist_of` stale_keys m threshold'.
Proof.
  intros Hle. unfold stale_keys.
  rewrite <- (list_filter_filter_l (λ key, default 0 (m !! key) ≤ threshold)
                (λ key, default 0 (m !! key) ≤ threshold')) by (intros; lia).
  apply sublist_filter.
Qed.
End Report_more.

Lemma End_text_lines_witness :
  rule_formater sample_result = TextFormater (mkTextFormater false "") ∧
  contents (out (@End Buffer _ UTC_env plain_literal map_order sample_result))
    = "cpu" +:+ newline.
Proof.
  split; [reflexivity|].
  rewrite (@End_text_lines UTC_env plain_literal map_order sample_result ""
             eq_refl).
  vm_compute. reflexivity.
Defined.

(** ** The life cycle *)

(** X13. The hooks other than [Apply] change nothing: after any sequence
    of calls of the engine the rule is in the state that the [Apply] calls
    of the sequence alone produce. In particular [WithLogger] does not
    replace the logger of the rule, and [CheckMode] has no effect. *)
Theorem traverse_applies {W ShardInfo : Type} (decode : bytes → bytes * bytes)
    (r : OldSeriesRule W) (hooks : list (hook ShardInfo)) :
  traverse decode r hooks = ApplyAll decode r (applies hooks).
Proof.
  revert r. induction hooks as [|h hooks IH]; intros r; [done|].
  destruct h; simpl; try apply IH.
  destruct (Apply decode r key values) as [[r' rw]|msg]; [|done].
  simpl. apply IH.
Qed.

(** ** Construction, continued *)

Section Construction_more.
Context {W : Type} `{!Writer W} `{!TimeEnv} `{!JsonEnv}.
Variable logging_GetLogger : string → Logger.
Variable time_Parse : string → string → time_Time + error.
Variable os_Stdout os_Stderr : W.

(** X14. A rule that [Build] returns is as the configuration says: the
    time parsed, the threshold is its Unix time in nanoseconds, the
    destination is the one of [Out], the map is empty, and the formater is
    the text formater for the formats [text] and empty, the JSON formater
    for [json], with the [Timestamp] flag and the layout of the
    configuration. *)
Theorem Build_inl_inv (os_Create : string → W + error) c r :
  Build logging_GetLogger time_Parse os_Stdout os_Stderr os_Create c = inl r →
  ∃ t, time_Parse time_RFC3339 (Time c) = inl t ∧
    unixNano r = Time_UnixNano t ∧
    destination os_Stdout os_Stderr os_Create c = inl (out r) ∧
    series r = ∅ ∧
    logger r = logging_GetLogger "OldSeriesRule" ∧
    (((Format c = "" ∨ Format c = "text") ∧
      rule_formater r
        = TextFormater (mkTextFormater (Timestamp c) (TimestampLayout c))) ∨
     (Format c = "json" ∧
      rule_formater r
        = JsonFormater (mkJsonFormater (Timestamp c) (TimestampLayout c)))).
Proof.
  rewrite Build_eq. destruct (time_Parse _ _) as [t|]; [|done].
  destruct (destination _ _ _ _) as [w|]; [|done].
  unfold newFormater. intros Hr. exists t. split; [done|].
  repeat case_decide; try done; injection Hr as <-; simpl;
    (split; [by rewrite Z.quot_1_r|]); repeat split; try done;
    subst; eauto.
Qed.

(** X15. A rule made by [NewOldSeriesRule] never prints timestamps: its
    formater has the flag off and an empty layout, so that what it writes
    for a series does not depend on the timestamp. *)
Theorem NewOldSeriesRule_no_timestamp it t (w : W) name r :
  NewOldSeriesRule logging_GetLogger t w name = inl r →
  (name = "text" ∧ rule_formater r = TextFormater (mkTextFormater false "") ∨
   name = "json" ∧ rule_formater r = JsonFormater (mkJsonFormater false "")) ∧
  series r = ∅ ∧ out r = w ∧
  ∀ (w' : W) key timestamp timestamp',
    format it (rule_formater r) w' key timestamp
      = format it (rule_formater r) w' key timestamp'.
Proof.
  unfold NewOldSeriesRule, newFormater.
  repeat case_decide; try done; intros [= <-]; simpl; subst; eauto 10.
Qed.

(** X16. The threshold of a new rule is the instant in nanoseconds since
    the epoch, as long as that number fits [int64]; converting it back with
    [time.Unix] gives the seconds and the nanoseconds of the instant. *)
Theorem newOldSeriesRule_threshold t (w : W) f :
  0 ≤ nsec t < 10^9 →
  - 2^63 ≤ unixSec t * 10^9 + nsec t < 2^63 →
  unixNano (newOldSeriesRule logging_GetLogger t w f)
    = unixSec t * 10^9 + nsec t ∧
  time_Unix (loc t) 0 (unixNano (newOldSeriesRule logging_GetLogger t w f)) = t.
Proof.
  intros Hnsec Hfit. simpl. unfold time_Nanosecond, Time_UnixNano, int64.
  rewrite Z.quot_1_r.
  assert ((unixSec t * 10^9 + nsec t + 2^63) `mod` 2^64 - 2^63
          = unixSec t * 10^9 + nsec t) as ->.
  { rewrite Z.mod_small; lia. }
  split; [done|]. rewrite time_Unix_floor. destruct t as [sec ns l]. simpl in *.
  f_equal.
  - symmetry. apply (Z.div_unique _ _ _ ns); lia.
  - symmetry. apply (Z.mod_unique _ _ sec); lia.
Qed.

(** X17. [Build] and the file system. When the time does not parse, no file
    is created; for the destinations empty, [stdout] and [stderr] no file is
    created either; for any other destination the file is created as soon
    as the time has parsed, before the format is looked at, so that an
    unknown format leaves a created file behind the error. The value that
    [Build] returns is the one it returns when the file system is left
    out of view. *)
Theorem Build_fs_effects {FS : Type} (os_Create : FS → string → FS * (W + error))
    (fs : FS) c :
  (Build_fs logging_GetLogger time_Parse os_Stdout os_Stderr os_Create fs c).2
    = Build logging_GetLogger time_Parse os_Stdout os_Stderr
        (λ path, (os_Create fs path).2) c ∧
  (∀ err, time_Parse time_RFC3339 (Time c) = inr err →
     Build_fs logging_GetLogger time_Parse os_Stdout os_Stderr os_Create fs c
       = (fs, inr err)) ∧
  (∀ t, time_Parse time_RFC3339 (Time c) = inl t →
     (Build_fs logging_GetLogger time_Parse os_Stdout os_Stderr os_Create fs c).1
       = if decide (Out c = "" ∨ Out c = "stdout" ∨ Out c = "stderr")
         then fs else (os_Create fs (Out c)).1) ∧
  (∀ t fs' file,
     time_Parse time_RFC3339 (Time c) = inl t →
     Out c ≠ "" → Out c ≠ "stdout" → Out c ≠ "stderr" →
     os_Create fs (Out c) = (fs', inl file) →
     Format c ≠ "" → Format c ≠ "text" → Format c ≠ "json" →
     Build_fs logging_GetLogger time_Parse os_Stdout os_Stderr os_Create fs c
       = (fs', inr (Errorf ("Unknown format " +:+ Format c)))).
Proof.
  unfold Build_fs, Build. split; [|split; [|split]].
  - destruct (time_Parse _ _) as [t|]; [|done].
    repeat case_decide; try destruct (os_Create fs (Out c)) as [fs' [w|err]];
      simpl; try done; by destruct (newFormater _ _ _).
  - by intros err ->.
  - intros t ->.
    repeat case_decide; try destruct (os_Create fs (Out c)) as [fs' [w|err]];
      simpl; try by destruct (newFormater _ _ _).
    all: tauto.
  - intros t fs' file -> Hempty Hstdout Hstderr -> Hne Htext Hjson.
    rewrite !decide_False by done. rewrite decide_True by done.
    by rewrite newFormater_unknown.
Qed.
End Construction_more.

Lemma stale_keys_monotone_witness :
  100 ≤ 101 ∧
  stale_keys (series sample_result) 100
    `sublist_of` stale_keys (series sample_result) 101.
Proof.
  assert (100 ≤ 101) as H by lia. split; [exact H|].
  exact (stale_keys_monotone (series sample_result) 100 101 H).
Defined.

Lemma Build_inl_inv_witness :
  Build (λ _, mkLogger []) sample_Parse (mkBuffer "out") (mkBuffer "err")
    (λ path, inr (PathError path)) sample_json_config
    = inl (newOldSeriesRule (λ _, mkLogger []) (mkTime 0 0 time_UTC)
             (mkBuffer "err") (JsonFormater (mkJsonFormater true "RFC3339"))) ∧
  ∃ t, sample_Parse time_RFC3339 (Time sample_json_config) = inl t.
Proof.
  assert (Build (λ _, mkLogger []) sample_Parse (mkBuffer "out") (mkBuffer "err")
            (λ path, inr (PathError path)) sample_json_config
          = inl (newOldSeriesRule (λ _, mkLogger []) (mkTime 0 0 time_UTC)
                   (mkBuffer "err")
                   (JsonFormater (mkJsonFormater true "RFC3339")))) as H
    by reflexivity.
  split; [exact H|].
  destruct (Build_inl_inv (λ _, mkLogger []) sample_Parse (mkBuffer "out")
              (mkBuffer "err") (λ path, inr (PathError path))
              sample_json_config _ H) as (t & Ht & _).
  exists t. exact Ht.
Defined.

Lemma NewOldSeriesRule_no_timestamp_witness :
  NewOldSeriesRule (λ _, mkLogger []) (mkTime 0 0 time_UTC) (mkBuffer "") "json"
    = inl (newOldSeriesRule (λ _, mkLogger []) (mkTime 0 0 time_UTC)
             (mkBuffer "") (JsonFormater (mkJsonFormater false ""))) ∧
  @format UTC_env plain_literal Buffer _ map_order
    (JsonFormater (mkJsonFormater false "")) (mkBuffer "") "cpu" 1
  = @format UTC_env plain_literal Buffer _ map_order
      (JsonFormater (mkJsonFormater false "")) (mkBuffer "") "cpu" 2.
Proof.
  assert (NewOldSeriesRule (λ _, mkLogger []) (mkTime 0 0 time_UTC)
            (mkBuffer "") "json"
          = inl (newOldSeriesRule (λ _, mkLogger []) (mkTime 0 0 time_UTC)
                   (mkBuffer "") (JsonFormater (mkJsonFormater false ""))))
    as H by reflexivity.
  split; [exact H|].
  destruct (@NewOldSeriesRule_no_timestamp Buffer _ UTC_env plain_literal
              (λ _, mkLogger []) map_order _ _ _ _ H) as (_ & _ & _ & Hsame).
  exact (Hsame (mkBuffer "") "cpu" 1 2).
Defined.

Lemma newOldSeriesRule_threshold_witness :
  0 ≤ nsec (mkTime 1577836800 5 time_UTC) < 10^9 ∧
  - 2^63 ≤ unixSec (mkTime 1577836800 5 time_UTC) * 10^9
             + nsec (mkTime 1577836800 5 time_UTC) < 2^63 ∧
  unixNano (newOldSeriesRule (λ _, mkLogger []) (mkTime 1577836800 5 time_UTC)
              (mkBuffer "") (TextFormater (mkTextFormater false "")))
    = 1577836800000000005.
Proof.
  assert (0 ≤ nsec (mkTime 1577836800 5 time_UTC) < 10^9) as Hn
    by (simpl; lia).
  assert (- 2^63 ≤ unixSec (mkTime 1577836800 5 time_UTC) * 10^9
                     + nsec (mkTime 1577836800 5 time_UTC) < 2^63) as Hf
    by (simpl; lia).
  split; [exact Hn|]. split; [exact Hf|].
  rewrite (proj1 (newOldSeriesRule_threshold (λ _, mkLogger [])
                    (mkTime 1577836800 5 time_UTC) (mkBuffer "")
                    (TextFormater (mkTextFormater false "")) Hn Hf)).
  reflexivity.
Defined.

(** An instant that does not fit [int64], the first second of the year
    2300: the threshold wraps around and lies before the epoch. *)
Example newOldSeriesRule_threshold_wraps :
  unixNano (newOldSeriesRule (λ _, mkLogger []) (mkTime 10413792000 0 time_UTC)
              (mkBuffer "") (TextFormater (mkTextFormater false "")))
    = - 8032952073709551616.
Proof. vm_compute. reflexivity. Qed.

Lemma Build_fs_effects_witness :
  Build_fs (λ _, mkLogger []) sample_Parse (mkBuffer "") (mkBuffer "")
    sample_Create ∅ sample_file_config
  = (<[ "old.log" := "" ]> ∅, inr (Errorf "Unknown format xml")).
Proof.
  destruct (Build_fs_effects (λ _, mkLogger []) sample_Parse (mkBuffer "")
              (mkBuffer "") sample_Create ∅ sample_file_config)
    as (_ & _ & _ & Hleft).
  apply (Hleft (mkTime 0 0 time_UTC) _ (mkBuffer "")); try reflexivity;
    discriminate.
Defined.

(** ** The rendering without layout, continued *)

(** X18. Without layout the rendering tells two timestamps apart only when
    they are Unicode scalar values: distinct scalar values render
    differently, and all the other timestamps render alike. *)
Theorem empty_layout_collisions `{!TimeEnv} (t t' : Z) :
  (valid_scalar t → valid_scalar t' →
     formatTimestamp t "" = formatTimestamp t' "" → t = t') ∧
  (¬ valid_scalar t → ¬ valid_scalar t' →
     formatTimestamp t "" = formatTimestamp t' "").
Proof.
  unfold formatTimestamp. rewrite !decide_True by done. split.
  - intros Ht Ht' Heq. rewrite !intstring_scalar in Heq by done.
    apply (f_equal runes) in Heq. rewrite !runes_encoderune in Heq by done.
    by injection Heq.
  - intros Ht Ht'. by rewrite !intstring_not_scalar.
Qed.

Lemma empty_layout_collisions_witness :
  ¬ valid_scalar 1577836800000000000 ∧ ¬ valid_scalar 1609459200000000000 ∧
  @formatTimestamp UTC_env 1577836800000000000 ""
    = @formatTimestamp UTC_env 1609459200000000000 "".
Proof.
  assert (¬ valid_scalar 1577836800000000000) as H1.
  { unfold valid_scalar, maxRune, surrogateMin, surrogateMax. lia. }
  assert (¬ valid_scalar 1609459200000000000) as H2.
  { unfold valid_scalar, maxRune, surrogateMin, surrogateMax. lia. }
  split; [exact H1|]. split; [exact H2|].
  exact (proj2 (@empty_layout_collisions UTC_env
                  1577836800000000000 1609459200000000000) H1 H2).
Defined.
